(** * googleauthservice: client session controller and multi-tier storage

    A shallow embedding of [client/src/multiStorageService.ts] and
    [client/src/googleAuthService.ts], with the parts of the
    [UserAvatar] and [GoogleSignInButton] components that keep state.
    The browser (localStorage, the cookie jar, IndexedDB, the Google
    Identity Services script, the network) is an explicit [World];
    every function of the two modules that the properties below reach
    is a computation in a state-and-exception monad over it, [await]
    being sequencing.

    Every interaction with the browser is appended to a trace, so that
    what was called, in which order, and with which token in memory can
    be stated.  The cookie jar is a map from cookie name to value: the
    [encodeURIComponent]/[decodeURIComponent] pair and the
    [name=value; ...] text of [document.cookie], which undo each other
    on what the code writes, are not spelled out.  Subscribers are
    opaque: invoking one is an event, and it does not throw. *)

From stdpp Require Import gmap strings list fin_maps.

Set Default Proof Using "Type".
Open Scope string_scope.
Open Scope list_scope.

(** ** JavaScript values the code looks at *)

(** [if (value)] on a [string]: only the empty string is falsy. *)
Definition truthy (s : string) : bool := negb (String.eqb s EmptyString).

(** [if (value)] on a [string | null]. *)
Definition truthy_opt (o : option string) : bool :=
  match o with
  | Some s => truthy s
  | None => false
  end.

(** [types.ts]: [GoogleUser].  (The [credits] field that the service
    copies through is not part of the declared type and is left out.) *)
Record GoogleUser := mkUser {
  userId : string;
  email : string;
  name : option string;
  profilePicture : option string;
  isNewUser : bool;
}.

#[global] Instance GoogleUser_eq_dec : EqDecision GoogleUser.
Proof. solve_decision. Defined.

(** [types.ts]: [GoogleAuthConfig]; [storagePrefix] is optional. *)
Record GoogleAuthConfig := mkConfig {
  clientId : string;
  apiBaseUrl : string;
  storagePrefix : option string;
}.

(** The module-level [CONFIG] object: its [storagePrefix] is always set. *)
Record Config := mkCONFIG {
  cfg_clientId : string;
  cfg_apiBaseUrl : string;
  cfg_storagePrefix : string;
}.

(** ** The network *)

(** The [RequestInit] fields the service sets or passes through;
    [headers] is the [Headers] object, keyed by header name. *)
Record RequestInit := mkInit {
  method : string;
  headers : gmap string string;
  body : option string;
}.

#[global] Instance RequestInit_eq_dec : EqDecision RequestInit.
Proof. solve_decision. Defined.

(** One [fetch(url, {...init, credentials: 'include'})] call. *)
Record Request := mkReq {
  req_url : string;
  req_init : RequestInit;
}.

#[global] Instance Request_eq_dec : EqDecision Request.
Proof. solve_decision. Defined.

(** The fields of a JSON response body that the client reads. *)
Record Json := mkJson {
  j_success : bool;
  j_access_token : option string;
  j_user_id : string;
  j_email : string;
  j_name : option string;
  j_profile_picture : option string;
}.

(** A [Response]: [json_body = None] when [response.json()] rejects. *)
Record Response := mkResp {
  status : nat;
  json_body : option Json;
}.

(** [response.ok]: status in the range 200-299. *)
Definition ok (r : Response) : bool :=
  (200 <=? status r)%nat && (status r <=? 299)%nat.

(** What [await fetch(...)] produces: a response, or a rejection
    (network failure, transport-level timeout). *)
Inductive FetchOutcome :=
| Responded (r : Response)
| NetworkError.

(** ** Events and the world *)

(** Subscribers are compared by reference ([cb !== callback]); a
    callback is represented by its identity. *)
Definition Callback := nat.

Inductive Event :=
| EvLsGet (k : string)
| EvLsSet (k v : string)
| EvLsRemove (k : string)
| EvCookieGet (k : string)
| EvCookieSet (k v : string)
| EvCookieDelete (k : string)
| EvIdbOpen
| EvIdbGet (k : string)
| EvIdbPut (k v : string)
| EvIdbDelete (k : string)
| EvFetch (r : Request)
| EvGisInitialize (client_id : string)
| EvGisDisableAutoSelect
| EvGisRevoke (mail : string)
| EvNotify (cb : Callback) (u : option GoogleUser).

#[global] Instance Event_eq_dec : EqDecision Event.
Proof. solve_decision. Defined.

(** A trace entry: the external interaction, and the value the
    in-memory [accessToken] had when it took place. *)
Record Entry := mkEntry {
  ev : Event;
  token_then : option string;
}.

(** Which operations of the three storage engines fail.  The first six
    are exceptions raised inside a [try] (for the cookie the write may
    also be dropped silently by the jar); [idb_open_fails] is
    [indexedDB.open] erroring; the last three are an individual request
    ([store.put], [store.get], [store.delete]) firing [onerror]. *)
Record Faults := mkFaults {
  ls_get_throws : bool;
  ls_set_throws : bool;
  ls_remove_throws : bool;
  cookie_get_throws : bool;
  cookie_set_fails : bool;
  cookie_delete_fails : bool;
  idb_open_fails : bool;
  idb_put_fails : bool;
  idb_get_fails : bool;
  idb_delete_fails : bool;
}.

Definition no_faults : Faults :=
  mkFaults false false false false false false false false false false.

Record World := mkWorld {
  (* googleAuthService.ts module state *)
  CONFIG : Config;
  accessToken : option string;
  authStateCallbacks : list Callback;
  (* multiStorageService.ts module state: the cached [getDB] promise,
     [Some true] resolved, [Some false] rejected *)
  dbPromise : option bool;
  (* the three storage engines *)
  localStorage : gmap string string;
  cookieJar : gmap string string;
  idbStore : gmap string string;
  (* IndexedDB writes started with [.catch(() => {})] and not awaited *)
  pending : list (string * string);
  faults : Faults;
  (* [window.google?.accounts?.id] is defined now / becomes defined
     while [initGoogleAuth] is polling *)
  gis_loaded : bool;
  gis_arriving : bool;
  (* the JavaScript runtime and the network: [JSON.parse] of a stored
     identity ([None] when it throws or yields [null]),
     [JSON.stringify] of an identity, and the outcome of a [fetch]
     given the requests made before it *)
  JSON_parse : string → option GoogleUser;
  JSON_stringify : GoogleUser → string;
  server : list Request → Request → FetchOutcome;
  trace : list Entry;
}.

(** Field updates.  Each takes the record apart once, so that a chain
    of updates is evaluated in a single pass. *)
Definition set_CONFIG (x : Config) (w : World) : World :=
  match w with
  | mkWorld c t cbs db ls ck idb pd f gl ga jp js sv tr =>
      mkWorld x t cbs db ls ck idb pd f gl ga jp js sv tr
  end.

Definition set_accessToken (x : option string) (w : World) : World :=
  match w with
  | mkWorld c t cbs db ls ck idb pd f gl ga jp js sv tr =>
      mkWorld c x cbs db ls ck idb pd f gl ga jp js sv tr
  end.

Definition set_authStateCallbacks (x : list Callback) (w : World) : World :=
  match w with
  | mkWorld c t cbs db ls ck idb pd f gl ga jp js sv tr =>
      mkWorld c t x db ls ck idb pd f gl ga jp js sv tr
  end.

Definition set_dbPromise (x : option bool) (w : World) : World :=
  match w with
  | mkWorld c t cbs db ls ck idb pd f gl ga jp js sv tr =>
      mkWorld c t cbs x ls ck idb pd f gl ga jp js sv tr
  end.

Definition set_localStorage (x : gmap string string) (w : World) : World :=
  match w with
  | mkWorld c t cbs db ls ck idb pd f gl ga jp js sv tr =>
      mkWorld c t cbs db x ck idb pd f gl ga jp js sv tr
  end.

Definition set_cookieJar (x : gmap string string) (w : World) : World :=
  match w with
  | mkWorld c t cbs db ls ck idb pd f gl ga jp js sv tr =>
      mkWorld c t cbs db ls x idb pd f gl ga jp js sv tr
  end.

Definition set_idbStore (x : gmap string string) (w : World) : World :=
  match w with
  | mkWorld c t cbs db ls ck idb pd f gl ga jp js sv tr =>
      mkWorld c t cbs db ls ck x pd f gl ga jp js sv tr
  end.

Definition set_pending (x : list (string * string)) (w : World) : World :=
  match w with
  | mkWorld c t cbs db ls ck idb pd f gl ga jp js sv tr =>
      mkWorld c t cbs db ls ck idb x f gl ga jp js sv tr
  end.

Definition set_faults (x : Faults) (w : World) : World :=
  match w with
  | mkWorld c t cbs db ls ck idb pd f gl ga jp js sv tr =>
      mkWorld c t cbs db ls ck idb pd x gl ga jp js sv tr
  end.

Definition set_gis_loaded (x : bool) (w : World) : World :=
  match w with
  | mkWorld c t cbs db ls ck idb pd f gl ga jp js sv tr =>
      mkWorld c t cbs db ls ck idb pd f x ga jp js sv tr
  end.

(** Record an interaction, stamped with the current [accessToken]. *)
Definition log (e : Event) (w : World) : World :=
  match w with
  | mkWorld c t cbs db ls ck idb pd f gl ga jp js sv tr =>
      mkWorld c t cbs db ls ck idb pd f gl ga jp js sv (tr ++ [mkEntry e t])
  end.

Definition events (w : World) : list Event := ev <$> trace w.

(** ** Computations: state plus JavaScript exceptions

    A thrown exception (or a rejected promise that is awaited) keeps
    the state changes made so far. *)

Inductive Error :=
| StorageError
| FetchFailed
| JsonError
| GisNotConfigured
| GisLoadTimeout.

Inductive Outcome (A : Type) :=
| Ok (a : A)
| Throw (e : Error).
Arguments Ok {A} a.
Arguments Throw {A} e.

Definition M (A : Type) : Type := World → Outcome A * World.

Definition ret {A} (a : A) : M A := λ w, (Ok a, w).

Definition throw {A} (e : Error) : M A := λ w, (Throw e, w).

Definition bind {A B} (m : M A) (f : A → M B) : M B :=
  λ w, match m w with
       | (Ok a, w') => f a w'
       | (Throw e, w') => (Throw e, w')
       end.

(** [try { m } catch (e) { h }] *)
Definition try_catch {A} (m : M A) (h : Error → M A) : M A :=
  λ w, match m w with
       | (Ok a, w') => (Ok a, w')
       | (Throw e, w') => h e w'
       end.

Definition get {A} (f : World → A) : M A := λ w, (Ok (f w), w).

Definition modify (f : World → World) : M unit := λ w, (Ok tt, f w).

Definition emit (e : Event) : M unit := modify (log e).

Notation "'let!' x ':=' m 'in' k" := (bind m (λ x, k))
  (at level 10, x name, m at level 200, k at level 200, only parsing).
Notation "'do!' m 'in' k" := (bind m (λ _, k))
  (at level 10, m at level 200, k at level 200, only parsing).

Definition when (b : bool) (m : M unit) : M unit := if b then m else ret tt.

(** ** multiStorageService.ts *)

(** [getDB()]: the open request is made once and its promise cached,
    also when it rejected. *)
Definition getDB : M unit :=
  λ w, match dbPromise w with
       | Some true => (Ok tt, w)
       | Some false => (Throw StorageError, w)
       | None =>
           let w1 := log EvIdbOpen w in
           if idb_open_fails (faults w1)
           then (Throw StorageError, set_dbPromise (Some false) w1)
           else (Ok tt, set_dbPromise (Some true) w1)
       end.

(** [setCookie(key, value, days)]: the whole body is inside [try]. *)
Definition setCookie (key value : string) : M unit :=
  do! emit (EvCookieSet key value) in
  λ w, if cookie_set_fails (faults w) then (Ok tt, w)
       else (Ok tt, set_cookieJar (<[key := value]> (cookieJar w)) w).

(** [getCookie(key)]: the first cookie named [key], else [null]. *)
Definition getCookie (key : string) : M (option string) :=
  do! emit (EvCookieGet key) in
  λ w, if cookie_get_throws (faults w) then (Ok None, w)
       else (Ok (cookieJar w !! key), w).

(** [deleteCookie(key)] *)
Definition deleteCookie (key : string) : M unit :=
  do! emit (EvCookieDelete key) in
  λ w, if cookie_delete_fails (faults w) then (Ok tt, w)
       else (Ok tt, set_cookieJar (delete key (cookieJar w)) w).

(** The promise built around [store.put(value, key)]. *)
Definition idb_put (key value : string) : M unit :=
  do! emit (EvIdbPut key value) in
  λ w, if idb_put_fails (faults w) then (Throw StorageError, w)
       else (Ok tt, set_idbStore (<[key := value]> (idbStore w)) w).

(** The promise built around [store.get(key)], resolving with
    [request.result ?? null]. *)
Definition idb_get (key : string) : M (option string) :=
  do! emit (EvIdbGet key) in
  λ w, if idb_get_fails (faults w) then (Throw StorageError, w)
       else (Ok (idbStore w !! key), w).

(** The promise built around [store.delete(key)]. *)
Definition idb_delete (key : string) : M unit :=
  do! emit (EvIdbDelete key) in
  λ w, if idb_delete_fails (faults w) then (Throw StorageError, w)
       else (Ok tt, set_idbStore (delete key (idbStore w)) w).

(** [setIndexedDB]: [try { const db = await getDB(); return new
    Promise(...) } catch { warn }].  Only [await getDB()] is awaited
    inside the [try]; the request promise is returned, not awaited, so
    its rejection is the rejection of [setIndexedDB] itself. *)
Definition setIndexedDB (key value : string) : M unit :=
  let! opened := try_catch (do! getDB in ret true) (λ _, ret false) in
  if opened then idb_put key value else ret tt.

(** [getIndexedDB]: same shape; [null] when the database cannot be
    opened. *)
Definition getIndexedDB (key : string) : M (option string) :=
  let! opened := try_catch (do! getDB in ret true) (λ _, ret false) in
  if opened then idb_get key else ret None.

(** [deleteIndexedDB]: same shape. *)
Definition deleteIndexedDB (key : string) : M unit :=
  let! opened := try_catch (do! getDB in ret true) (λ _, ret false) in
  if opened then idb_delete key else ret tt.

(** [localStorage.setItem] inside [try { } catch { }]. *)
Definition ls_setItem_try (key value : string) : M unit :=
  do! emit (EvLsSet key value) in
  λ w, if ls_set_throws (faults w) then (Ok tt, w)
       else (Ok tt, set_localStorage (<[key := value]> (localStorage w)) w).

(** [localStorage.getItem] inside [try { } catch { }]: [null] when it
    throws. *)
Definition ls_getItem_try (key : string) : M (option string) :=
  do! emit (EvLsGet key) in
  λ w, if ls_get_throws (faults w) then (Ok None, w)
       else (Ok (localStorage w !! key), w).

(** [localStorage.removeItem] inside [try { } catch { }]. *)
Definition ls_removeItem_try (key : string) : M unit :=
  do! emit (EvLsRemove key) in
  λ w, if ls_remove_throws (faults w) then (Ok tt, w)
       else (Ok tt, set_localStorage (delete key (localStorage w)) w).

(** The [value: unknown] argument of [multiSet]: a string, or an
    object (the service only ever passes a [GoogleUser]). *)
Inductive JsValue :=
| JString (s : string)
| JObject (u : GoogleUser).

(** [multiSet(key, value)] *)
Definition multiSet (key : string) (value : JsValue) : M unit :=
  let! stringValue :=
    get (λ w, match value with
              | JString s => s
              | JObject u => JSON_stringify w u
              end) in
  do! ls_setItem_try key stringValue in
  do! setCookie key stringValue in
  setIndexedDB key stringValue.

(** [setIndexedDB(key, value).catch(() => { })], not awaited: the
    synchronous prefix ([getDB()]) runs now, the put is left in
    flight. *)
Definition setIndexedDB_detached (key value : string) : M unit :=
  let! opened := try_catch (do! getDB in ret true) (λ _, ret false) in
  if opened
  then modify (λ w, set_pending (pending w ++ [(key, value)]) w)
  else ret tt.

(** The [source] variable of [multiGet]: [''], ['localStorage'],
    ['cookie'] or ['indexedDB']. *)
Inductive Source := SrcEmpty | SrcLocalStorage | SrcCookie | SrcIndexedDB.

#[global] Instance Source_eq_dec : EqDecision Source.
Proof. solve_decision. Defined.

(** [multiGet(key)] *)
Definition multiGet (key : string) : M (option string) :=
  let! v1 := ls_getItem_try key in
  let s1 := if truthy_opt v1 then SrcLocalStorage else SrcEmpty in
  let! v2 := (if negb (truthy_opt v1) then getCookie key else ret v1) in
  let s2 :=
    if negb (truthy_opt v1) && truthy_opt v2 then SrcCookie else s1 in
  let! v3 := (if negb (truthy_opt v2) then getIndexedDB key else ret v2) in
  let s3 :=
    if negb (truthy_opt v2) && truthy_opt v3 then SrcIndexedDB else s2 in
  do! (match v3 with
       | Some value =>
           if truthy value && bool_decide (s3 ≠ SrcEmpty)
           then
             do! when (bool_decide (s3 ≠ SrcLocalStorage))
                   (ls_setItem_try key value) in
             do! when (bool_decide (s3 ≠ SrcCookie))
                   (setCookie key value) in
             when (bool_decide (s3 ≠ SrcIndexedDB))
               (setIndexedDB_detached key value)
           else ret tt
       | None => ret tt
       end) in
  ret v3.

(** [multiGetSync(key)] *)
Definition multiGetSync (key : string) : M (option string) :=
  let! value := ls_getItem_try key in
  if truthy_opt value then ret value else getCookie key.

(** [multiRemove(key)] *)
Definition multiRemove (key : string) : M unit :=
  do! ls_removeItem_try key in
  do! deleteCookie key in
  deleteIndexedDB key.

(** The event loop going idle: every IndexedDB write left in flight
    by [multiGet] completes; a failing one is swallowed by its
    [.catch(() => { })]. *)
Fixpoint settle_puts (l : list (string * string)) (w : World) : World :=
  match l with
  | [] => w
  | (k, v) :: l' =>
      settle_puts l' (snd (try_catch (idb_put k v) (λ _, ret tt) w))
  end.

Definition settle (w : World) : World :=
  settle_puts (pending w) (set_pending [] w).

(** ** googleAuthService.ts *)

(** [getStorageKeys()] *)
Definition getStorageKeys_user (w : World) : string :=
  cfg_storagePrefix (CONFIG w) +:+ "_user".

Definition getStorageKeys_avatarCache (w : World) : string :=
  cfg_storagePrefix (CONFIG w) +:+ "_avatar_cache".

(** [CONFIG] as the module initialises it. *)
Definition CONFIG_initial : Config :=
  mkCONFIG EmptyString EmptyString "auth".

(** [configureGoogleAuth(config)] *)
Definition configureGoogleAuth (config : GoogleAuthConfig) : M unit :=
  modify (λ w,
    set_CONFIG
      (mkCONFIG (clientId config) (apiBaseUrl config)
         (match storagePrefix config with
          | Some p => if truthy p then p else cfg_storagePrefix (CONFIG w)
          | None => cfg_storagePrefix (CONFIG w)
          end)) w).

(** [getAvatarCacheKey()] *)
Definition getAvatarCacheKey : M string := get getStorageKeys_avatarCache.

(** The function [onAuthStateChange] returns. *)
Definition unsubscribe (callback : Callback) : M unit :=
  modify (λ w,
    set_authStateCallbacks
      (filter (λ cb, cb ≠ callback) (authStateCallbacks w)) w).

(** [onAuthStateChange(callback)] *)
Definition onAuthStateChange (callback : Callback) : M (M unit) :=
  do! modify (λ w,
        set_authStateCallbacks (authStateCallbacks w ++ [callback]) w) in
  ret (unsubscribe callback).

(** [notifyAuthStateChange(user)]: [forEach] over the array as it is
    when the notification starts. *)
Definition notifyAuthStateChange (user : option GoogleUser) : M unit :=
  λ w, (Ok tt,
        foldl (λ w' cb, log (EvNotify cb user) w') w (authStateCallbacks w)).

(** [await fetch(url, init)] *)
Fixpoint requests_of (l : list Event) : list Request :=
  match l with
  | [] => []
  | EvFetch r :: l' => r :: requests_of l'
  | _ :: l' => requests_of l'
  end.

Definition fetch (r : Request) : M Response :=
  λ w, match server w (requests_of (events w)) r with
       | Responded resp => (Ok resp, log (EvFetch r) w)
       | NetworkError => (Throw FetchFailed, log (EvFetch r) w)
       end.

(** [await response.json()] *)
Definition json (r : Response) : M Json :=
  match json_body r with
  | Some data => ret data
  | None => throw JsonError
  end.

Definition bearer (token : option string) : string :=
  "Bearer " +:+ match token with Some t => t | None => "null" end.

(** [initGoogleAuth()]: rejects at once without a client id; otherwise
    polls for the Google script, initialises it when it is (or becomes)
    available, and rejects when the ten seconds run out first. *)
Definition initGoogleAuth : M unit :=
  λ w, if negb (truthy (cfg_clientId (CONFIG w)))
       then (Throw GisNotConfigured, w)
       else if gis_loaded w
       then (Ok tt, log (EvGisInitialize (cfg_clientId (CONFIG w))) w)
       else if gis_arriving w
       then (Ok tt, log (EvGisInitialize (cfg_clientId (CONFIG w)))
                      (set_gis_loaded true w))
       else (Throw GisLoadTimeout, w).

(** [getCurrentUserSync()] *)
Definition getCurrentUserSync : M (option GoogleUser) :=
  let! key := get getStorageKeys_user in
  let! userStr := multiGetSync key in
  match userStr with
  | Some s => if truthy s then get (λ w, JSON_parse w s) else ret None
  | None => ret None
  end.

(** [getCurrentUser()] *)
Definition getCurrentUser : M (option GoogleUser) :=
  let! key := get getStorageKeys_user in
  let! userStr := multiGet key in
  match userStr with
  | Some s => if truthy s then get (λ w, JSON_parse w s) else ret None
  | None => ret None
  end.

(** [getAccessToken()] *)
Definition getAccessToken : M (option string) := get accessToken.

Definition logout_request (w : World) (token : option string) : Request :=
  mkReq (cfg_apiBaseUrl (CONFIG w) +:+ "/auth/logout")
    (mkInit "POST" {[ "Authorization" := bearer token ]} None).

(** [signOut()] *)
Definition signOut : M unit :=
  let! user := getCurrentUserSync in
  let! token := get accessToken in
  do! modify (set_accessToken None) in
  let! key := get getStorageKeys_user in
  do! multiRemove key in
  let! loaded := get gis_loaded in
  do! when loaded
        (do! emit EvGisDisableAutoSelect in
         match user with
         | Some u => when (truthy (email u)) (emit (EvGisRevoke (email u)))
         | None => ret tt
         end) in
  do! try_catch
        (if truthy_opt token
         then let! req := get (λ w, logout_request w token) in
              do! fetch req in ret tt
         else ret tt)
        (λ _, ret tt) in
  do! notifyAuthStateChange None in
  try_catch initGoogleAuth (λ _, ret tt).

(** [isAuthenticated()] *)
Definition isAuthenticated : M bool :=
  let! token := get accessToken in
  if truthy_opt token
  then let! user := getCurrentUserSync in ret (bool_decide (is_Some user))
  else ret false.

Definition refresh_request (w : World) : Request :=
  mkReq (cfg_apiBaseUrl (CONFIG w) +:+ "/auth/refresh")
    (mkInit "POST" {[ "Content-Type" := "application/json" ]} (Some "{}")).

(** [refreshToken()] *)
Definition refreshToken : M bool :=
  try_catch
    (let! req := get refresh_request in
     let! response := fetch req in
     if negb (ok response)
     then do! signOut in ret false
     else
       let! data := json response in
       if j_success data && truthy_opt (j_access_token data)
       then do! modify (set_accessToken (j_access_token data)) in ret true
       else ret false)
    (λ _, ret false).

Definition me_request (w : World) (token : option string) : Request :=
  mkReq (cfg_apiBaseUrl (CONFIG w) +:+ "/auth/me")
    (mkInit "GET" {[ "Authorization" := bearer token ]} None).

(** [fetchUserInfo()] *)
Definition fetchUserInfo : M (option GoogleUser) :=
  let! token := getAccessToken in
  if negb (truthy_opt token) then ret None
  else
    try_catch
      (let! req := get (λ w, me_request w token) in
       let! response := fetch req in
       if negb (ok response)
       then do! when (status response =? 401)%nat signOut in ret None
       else
         let! data := json response in
         let user :=
           mkUser (j_user_id data) (j_email data) (j_name data)
             (j_profile_picture data) false in
         let! key := get getStorageKeys_user in
         do! multiSet key (JObject user) in
         do! notifyAuthStateChange (Some user) in
         ret (Some user))
      (λ _, ret None).

(** [initializeAuth()] *)
Definition initializeAuth : M (option GoogleUser) :=
  let! token := get accessToken in
  let! freshUser := (if truthy_opt token then fetchUserInfo else ret None) in
  match freshUser with
  | Some u => ret (Some u)
  | None =>
      let! cached := getCurrentUserSync in
      match cached with
      | None =>
          do! try_catch initGoogleAuth (λ _, ret tt) in
          ret None
      | Some _ =>
          let! restored :=
            try_catch
              (let! refreshed := refreshToken in
               if refreshed then fetchUserInfo else ret None)
              (λ _, ret None) in
          match restored with
          | Some u => ret (Some u)
          | None =>
              do! try_catch initGoogleAuth (λ _, ret tt) in
              ret None
          end
      end
  end.

(** [authenticatedFetch(url, options)]; [options] defaults to [{}]. *)
Definition with_authorization (token : option string)
    (h : gmap string string) : gmap string string :=
  <[ "Authorization" := bearer token ]> h.

Definition authenticatedFetch (url : string) (options : RequestInit)
    : M Response :=
  let! token := getAccessToken in
  let headers1 :=
    if truthy_opt token then with_authorization token (headers options)
    else headers options in
  let! response :=
    fetch (mkReq url (mkInit (method options) headers1 (body options))) in
  if (status response =? 401)%nat && truthy_opt token
  then
    let! refreshed := refreshToken in
    if refreshed
    then
      let! newToken := getAccessToken in
      let headers2 := with_authorization newToken headers1 in
      fetch (mkReq url (mkInit (method options) headers2 (body options)))
    else
      do! signOut in
      ret response
  else ret response.


(** ** Observations the statements are written with *)

(** *** The trace *)

(** The requests sent so far, oldest first. *)
Definition fetched (w : World) : list Request := requests_of (events w).

Definition is_sync_read (e : Event) : bool :=
  match e with
  | EvLsGet _ | EvCookieGet _ => true
  | _ => false
  end.

Definition is_idb_event (e : Event) : bool :=
  match e with
  | EvIdbOpen | EvIdbGet _ | EvIdbPut _ _ | EvIdbDelete _ => true
  | _ => false
  end.

Definition is_storage (e : Event) : bool :=
  match e with
  | EvLsGet _ | EvLsSet _ _ | EvLsRemove _
  | EvCookieGet _ | EvCookieSet _ _ | EvCookieDelete _
  | EvIdbOpen | EvIdbGet _ | EvIdbPut _ _ | EvIdbDelete _ => true
  | _ => false
  end.

Definition is_gis (e : Event) : bool :=
  match e with
  | EvGisInitialize _ | EvGisDisableAutoSelect | EvGisRevoke _ => true
  | _ => false
  end.

Definition is_fetch (e : Event) : bool :=
  match e with
  | EvFetch _ => true
  | _ => false
  end.

Definition is_notify (e : Event) : bool :=
  match e with
  | EvNotify _ _ => true
  | _ => false
  end.

(** The steps of a sign-out that tear the session down: removal from a
    storage tier, the calls into the Google script, the logout
    request. *)
Definition is_teardown (e : Event) : bool :=
  match e with
  | EvLsRemove _ | EvCookieDelete _ | EvIdbDelete _
  | EvGisDisableAutoSelect | EvGisRevoke _ | EvFetch _ => true
  | _ => false
  end.

(** The notifications delivered so far, oldest first. *)
Definition notified (w : World) : list Event := filter is_notify (events w).

(** [w'] continues [w]: its trace is the trace of [w] followed by
    entries that all satisfy [P]. *)
Definition adds (P : Entry → Prop) (w w' : World) : Prop :=
  ∃ d, trace w' = trace w ++ d ∧ Forall P d.

(** An entry of class [cls] made while the token was [tok]. *)
Definition stamped (tok : option string) (cls : Event → bool) (e : Entry)
    : Prop :=
  cls (ev e) = true ∧ token_then e = tok.

(** *** The storage tiers *)

(** What a guarded [localStorage.getItem(k)] observes. *)
Definition ls_seen (w : World) (k : string) : option string :=
  if ls_get_throws (faults w) then None else localStorage w !! k.

(** What [getCookie(k)] observes. *)
Definition cookie_seen (w : World) (k : string) : option string :=
  if cookie_get_throws (faults w) then None else cookieJar w !! k.

(** What [multiGetSync(k)] yields. *)
Definition sync_view (w : World) (k : string) : option string :=
  if truthy_opt (ls_seen w k) then ls_seen w k else cookie_seen w k.

(** What [getCurrentUserSync()] yields: the cached identity. *)
Definition cached_identity (w : World) : option GoogleUser :=
  match sync_view w (getStorageKeys_user w) with
  | Some s => if truthy s then JSON_parse w s else None
  | None => None
  end.

(** A tier misses [k] when a read of it yields nothing the code
    takes for a value: no entry, or the empty string. *)
Definition missing (m : gmap string string) (k : string) : Prop :=
  truthy_opt (m !! k) = false.

(** All three engines work: nothing throws, and the database opens
    (or is open already). *)
Definition healthy (w : World) : Prop :=
  faults w = no_faults ∧ dbPromise w ≠ Some false.

(** No individual IndexedDB request ([put], [get], [delete]) errors. *)
Definition idb_requests_ok (f : Faults) : Prop :=
  idb_put_fails f = false ∧ idb_get_fails f = false
  ∧ idb_delete_fails f = false.

(** A tier fails when one of its guarded operations does; IndexedDB
    fails when the database cannot be opened. *)
Definition ls_fails (w : World) : bool :=
  ls_get_throws (faults w) || ls_set_throws (faults w).

Definition cookie_fails (w : World) : bool :=
  cookie_get_throws (faults w) || cookie_set_fails (faults w).

Definition idb_fails (w : World) : bool :=
  match dbPromise w with
  | Some opened => negb opened
  | None => idb_open_fails (faults w)
  end.

Definition failing_tiers (w : World) : nat :=
  Nat.b2n (ls_fails w) + Nat.b2n (cookie_fails w) + Nat.b2n (idb_fails w).

(** Removal from every tier goes through. *)
Definition removal_healthy (w : World) : Prop :=
  ls_remove_throws (faults w) = false
  ∧ cookie_delete_fails (faults w) = false
  ∧ idb_delete_fails (faults w) = false
  ∧ idb_fails w = false.

(** *** What an operation leaves alone *)

(** The parts of the world that only configuration and subscription
    change. *)
Definition same_setup (w w' : World) : Prop :=
  CONFIG w' = CONFIG w
  ∧ authStateCallbacks w' = authStateCallbacks w
  ∧ faults w' = faults w
  ∧ gis_arriving w' = gis_arriving w
  ∧ JSON_parse w' = JSON_parse w
  ∧ JSON_stringify w' = JSON_stringify w
  ∧ server w' = server w.

Definition same_session (w w' : World) : Prop :=
  accessToken w' = accessToken w ∧ gis_loaded w' = gis_loaded w.

Definition same_stores (w w' : World) : Prop :=
  localStorage w' = localStorage w
  ∧ cookieJar w' = cookieJar w
  ∧ idbStore w' = idbStore w
  ∧ dbPromise w' = dbPromise w
  ∧ pending w' = pending w.

(** *** Requests and replies *)

(** The token a reply to the refresh request grants: the reply must be
    a 2xx response whose body parses, has a truthy [success] and a
    truthy [access_token]. *)
Definition granted_token (reply : FetchOutcome) : option string :=
  match reply with
  | Responded r =>
      if ok r
      then match json_body r with
           | Some data =>
               if j_success data && truthy_opt (j_access_token data)
               then j_access_token data
               else None
           | None => None
           end
      else None
  | NetworkError => None
  end.

(** The request [authenticatedFetch(url, options)] sends while the
    token is [t]. *)
Definition authorized_request (url : string) (options : RequestInit)
    (t : string) : Request :=
  mkReq url
    (mkInit (method options)
       (with_authorization (Some t) (headers options)) (body options)).

(** *** Sequences of calls *)

(** A sequence of [configureGoogleAuth] calls. *)
Definition configure_all (configs : list GoogleAuthConfig) (w : World)
    : World :=
  foldl (λ w' config, snd (configureGoogleAuth config w')) w configs.

(** The prefix a call supplies: [config.storagePrefix] when the test
    [if (config.storagePrefix)] passes, that is, when it is a non-empty
    string. *)
Definition supplied_prefix (config : GoogleAuthConfig) : option string :=
  match storagePrefix config with
  | Some p => if truthy p then Some p else None
  | None => None
  end.

(** A sequence of [onAuthStateChange] calls. *)
Definition subscribe_all (cbs : list Callback) (w : World) : World :=
  foldl (λ w' cb, snd (onAuthStateChange cb w')) w cbs.

(** ** Sample worlds *)

(** [JSON.parse] as the samples have it: every string parses to an
    identity whose id and e-mail it is; [JSON.stringify] gives the
    e-mail back. *)
Definition user_of (s : string) : GoogleUser := mkUser s s None None false.

(** Empty stores, the module freshly loaded, no Google script, the
    server out of reach. *)
Definition blank : World :=
  mkWorld CONFIG_initial None [] None ∅ ∅ ∅ [] no_faults false false
    (λ s, Some (user_of s)) email (λ _ _, NetworkError) [].

(** Only IndexedDB holds the cached identity. *)
Definition only_idb : World :=
  set_idbStore {[ "auth_user" := "ada" ]} (set_dbPromise (Some true) blank).

(** localStorage holds ["old"] and refuses writes (quota exceeded). *)
Definition stale_ls : World :=
  set_faults
    (mkFaults false true false false false false false false false false)
    (set_localStorage {[ "k" := "old" ]} blank).

(** Every [store.put] request errors. *)
Definition put_errors : World :=
  set_faults
    (mkFaults false false false false false false false true false false)
    blank.

(** The IndexedDB database cannot be opened. *)
Definition idb_down : World :=
  set_faults
    (mkFaults false false false false false false true false false false)
    blank.

(** localStorage throws on every access. *)
Definition ls_down : World :=
  set_faults
    (mkFaults true true true false false false false false false false)
    blank.

(** Signed in: a token in memory, the identity cached in localStorage,
    two subscribers, the Google script loaded, the server out of
    reach. *)
Definition signed_in : World :=
  mkWorld (mkCONFIG "client-id" "https://api" "auth") (Some "t1") [1; 2]
    None {[ "auth_user" := "ada" ]} ∅ ∅ [] no_faults true false
    (λ s, Some (user_of s)) email (λ _ _, NetworkError) [].


(** The same, with a server that answers every request with 401. *)
Definition reloaded_rejected : World :=
  mkWorld (mkCONFIG "client-id" "https://api" "auth") None [1; 2]
    None {[ "auth_user" := "ada" ]} ∅ ∅ [] no_faults true false
    (λ s, Some (user_of s)) email (λ _ _, Responded (mkResp 401 None)) [].

(** A browser that never signed in. *)
Definition fresh_browser : World :=
  mkWorld (mkCONFIG "client-id" "https://api" "auth") None []
    None ∅ ∅ ∅ [] no_faults true false
    (λ s, Some (user_of s)) email (λ _ _, NetworkError) [].

(** A server whose refresh endpoint grants the token ["t2"], and whose
    every other endpoint answers 401 the first time it is requested
    and 200 from then on. *)
Definition grants_t2 : Response :=
  mkResp 200
    (Some (mkJson true (Some "t2") EmptyString EmptyString None None)).

Definition expired_once (history : list Request) (r : Request)
    : FetchOutcome :=
  if String.eqb (req_url r) "https://api/auth/refresh"
  then Responded grants_t2
  else if bool_decide (Exists (λ r', req_url r' = req_url r) history)
  then Responded (mkResp 200 None)
  else Responded (mkResp 401 None).

(** Signed in with a token the server no longer accepts. *)
Definition token_expired : World :=
  mkWorld (mkCONFIG "client-id" "https://api" "auth") (Some "t1") [1; 2]
    None {[ "auth_user" := "ada" ]} ∅ ∅ [] no_faults true false
    (λ s, Some (user_of s)) email expired_once [].

Definition get_items : RequestInit := mkInit "GET" ∅ None.

(** ** components/UserAvatar.tsx *)

(** The avatar cache. *)

(** [getCachedAvatar(cacheKey)] *)
Definition getCachedAvatar (cacheKey : string) : M (option string) :=
  ls_getItem_try cacheKey.

(** [clearCachedAvatar()] *)
Definition clearCachedAvatar : M unit :=
  let! cacheKey := getAvatarCacheKey in
  ls_removeItem_try cacheKey.

(** The write [cacheAvatar(url, cacheKey)] ends with, once the image
    has been fetched and read as a data URL:
    [try { localStorage.setItem(cacheKey, dataUrl) } catch { }]. *)
Definition cacheAvatar_store (cacheKey dataUrl : string) : M unit :=
  ls_setItem_try cacheKey dataUrl.

(** The image and its fallback. *)

(** The component's state: [imageSrc] and [imageError]. *)
Record Avatar := mkAvatar {
  imageSrc : option string;
  imageError : bool
}.

(** [handleError()], the image's [onError] handler. *)
Definition handleError (a : Avatar) : M Avatar :=
  let! cacheKey := getAvatarCacheKey in
  let! cached := getCachedAvatar cacheKey in
  if truthy_opt cached && negb (bool_decide (cached = imageSrc a))
  then ret (mkAvatar cached (imageError a))
  else ret (mkAvatar (imageSrc a) true).

(** The render test [imageSrc && !imageError]: the image is shown,
    otherwise the initials. *)
Definition shows_image (a : Avatar) : bool :=
  truthy_opt (imageSrc a) && negb (imageError a).

Definition avatarColors : list string :=
  ["#6366f1"; "#8b5cf6"; "#ec4899"; "#3b82f6"; "#14b8a6"; "#10b981";
   "#f97316"].

(** [email.charCodeAt(0)]: the code of the first character, [NaN] on
    the empty string.  (Strings are byte strings here; for the ASCII
    characters an address starts with, the byte is the code.) *)
Definition charCodeAt0 (s : string) : option nat :=
  match s with
  | EmptyString => None
  | String c _ => Some (Ascii.nat_of_ascii c)
  end.

(** [getAvatarColor()]: [avatarColors[email.charCodeAt(0) %
    avatarColors.length]], which is [undefined] when the index is
    [NaN]. *)
Definition getAvatarColor (email : string) : option string :=
  match charCodeAt0 email with
  | Some code => avatarColors !! (code mod length avatarColors)%nat
  | None => None
  end.

(** ** components/GoogleSignInButton.tsx: waiting for the Google script *)

(** The state of the effect that renders the button: the [attempts]
    counter, whether a timeout is scheduled, [isReady], and whether the
    failure to load was reported. *)
Record Button := mkButton {
  attempts : nat;
  scheduled : bool;
  isReady : bool;
  gave_up : bool
}.

Definition maxAttempts : nat := 20.

(** [tryRenderButton()] with both refs attached.  [google] is the test
    [window.google?.accounts?.id] at this call, [renders] whether
    [renderGoogleButton] returns rather than throws. *)
Definition tryRenderButton (google renders : bool) (b : Button) : Button :=
  if negb google
  then
    let attempts' := S (attempts b) in
    if (attempts' <? maxAttempts)%nat
    then mkButton attempts' true (isReady b) (gave_up b)
    else mkButton attempts' false (isReady b) true
  else if renders
  then mkButton (attempts b) false true (gave_up b)
  else mkButton (attempts b) false (isReady b) (gave_up b).

(** The effect runs [tryRenderButton()] once on mount; every 500 ms a
    scheduled timeout fires and runs it again.  [google_at n] is the
    state of the Google script [n] periods after the mount. *)
Definition mounted (google_at : nat → bool) (renders : bool) : Button :=
  tryRenderButton (google_at 0%nat) renders (mkButton 0 false false false).

Definition timeout_fires (google renders : bool) (b : Button) : Button :=
  if scheduled b then tryRenderButton google renders b else b.

Fixpoint button_after (google_at : nat → bool) (renders : bool) (n : nat)
    : Button :=
  match n with
  | O => mounted google_at renders
  | S n' =>
      timeout_fires (google_at n) renders (button_after google_at renders n')
  end.

(** ** Further observations *)

(** A page's life at the storage interface: calls of the four exported
    functions, the event loop going idle, and the environment changing
    which engine operations fail. *)
Inductive StorageCall :=
| CallSet (k : string) (value : JsValue)
| CallGet (k : string)
| CallGetSync (k : string)
| CallRemove (k : string)
| CallSettle
| EnvFaults (f : Faults).

Definition call_key (c : StorageCall) : option string :=
  match c with
  | CallSet k _ | CallGet k | CallGetSync k | CallRemove k => Some k
  | CallSettle | EnvFaults _ => None
  end.

Definition run_call (c : StorageCall) (w : World) : World :=
  match c with
  | CallSet k value => snd (multiSet k value w)
  | CallGet k => snd (multiGet k w)
  | CallGetSync k => snd (multiGetSync k w)
  | CallRemove k => snd (multiRemove k w)
  | CallSettle => settle w
  | EnvFaults f => set_faults f w
  end.

Definition run_calls (cs : list StorageCall) (w : World) : World :=
  foldl (λ w' c, run_call c w') w cs.

(** How many times [indexedDB.open] has been called, and how many
    IndexedDB interactions there have been in all. *)
Definition is_open (e : Event) : bool :=
  match e with
  | EvIdbOpen => true
  | _ => false
  end.

Definition opens (w : World) : nat := length (filter is_open (events w)).

Definition idb_traffic (w : World) : nat :=
  length (filter is_idb_event (events w)).

(** The three tiers hold [a], [b], [c] under [k] and no write to [k] is
    in flight. *)
Definition holds_under (k : string) (a b c : option string) (w : World)
    : Prop :=
  localStorage w !! k = a ∧ cookieJar w !! k = b ∧ idbStore w !! k = c
  ∧ Forall (λ p, fst p ≠ k) (pending w).

(** The cached [getDB] promise is rejected; the store is [s], nothing
    is in flight and there have been [n] IndexedDB interactions. *)
Definition idb_disabled (s : gmap string string) (n : nat) (w : World)
    : Prop :=
  dbPromise w = Some false ∧ pending w = [] ∧ idbStore w = s
  ∧ idb_traffic w = n.

(** [indexedDB.open] has been called exactly when a promise is
    cached. *)
Definition opened_with_promise (w : World) : Prop :=
  opens w = match dbPromise w with None => 0 | Some _ => 1 end.

(** [m] never throws (the promise it returns never rejects). *)
Definition never_rejects {A} (m : M A) : Prop :=
  ∀ w, ∃ a, fst (m w) = Ok a.

(** The identity [fetchUserInfo] builds from a [/auth/me] body. *)
Definition profile_of (data : Json) : GoogleUser :=
  mkUser (j_user_id data) (j_email data) (j_name data)
    (j_profile_picture data) false.

(** The request [authenticatedFetch(url, options)] sends when there is
    no token: [options] with no header added. *)
Definition plain_request (url : string) (options : RequestInit) : Request :=
  mkReq url (mkInit (method options) (headers options) (body options)).

(** ** More sample worlds *)

(** A server that grants the token ["t2"] on refresh, answers
    [GET /auth/me] with Ada's profile and knows no other path. *)
Definition ada_profile : Json :=
  mkJson true None "u-1" "ada@example.org" (Some "Ada") None.

Definition profile_server (history : list Request) (r : Request)
    : FetchOutcome :=
  if String.eqb (req_url r) "https://api/auth/refresh"
  then Responded grants_t2
  else if String.eqb (req_url r) "https://api/auth/me"
  then Responded (mkResp 200 (Some ada_profile))
  else Responded (mkResp 404 None).

(** Signed in, with that server. *)
Definition signed_in_online : World :=
  mkWorld (mkCONFIG "client-id" "https://api" "auth") (Some "t1") [1; 2]
    None {[ "auth_user" := "ada" ]} ∅ ∅ [] no_faults true false
    (λ s, Some (user_of s)) email profile_server [].

(** The page was reloaded, with that server. *)
Definition reloaded_online : World :=
  mkWorld (mkCONFIG "client-id" "https://api" "auth") None [1; 2]
    None {[ "auth_user" := "ada" ]} ∅ ∅ [] no_faults true false
    (λ s, Some (user_of s)) email profile_server [].

(** Signed in, and every [store.delete] request errors. *)
Definition delete_errors : World :=
  set_faults
    (mkFaults false false false false false false false false false true)
    signed_in.

(** Signed in with a token the server no longer accepts -- every
    answer is a 401 --, and every [store.delete] request errors. *)
Definition rejected_delete_errors : World :=
  mkWorld (mkCONFIG "client-id" "https://api" "auth") (Some "t1") [1; 2]
    None {[ "auth_user" := "ada" ]} ∅ ∅ []
    (mkFaults false false false false false false false false false true)
    true false (λ s, Some (user_of s)) email
    (λ _ _, Responded (mkResp 401 None)) [].

(** The Google script arrives eleven seconds after the mount. *)
Definition arrives_late (n : nat) : bool := (22 <=? n)%nat.

(** * Theorems *)

Lemma truthy_true s : truthy s = true ↔ s ≠ EmptyString.
Proof.
  unfold truthy. rewrite negb_true_iff.
  split; intros H.
  - intros ->. discriminate.
  - apply String.eqb_neq. exact H.
Qed.

Lemma truthy_false s : truthy s = false ↔ s = EmptyString.
Proof.
  unfold truthy. rewrite negb_false_iff. apply String.eqb_eq.
Qed.

Lemma adds_refl P w : adds P w w.
Proof. exists []. split; [by rewrite app_nil_r | constructor]. Qed.

Lemma adds_trans P w1 w2 w3 : adds P w1 w2 → adds P w2 w3 → adds P w1 w3.
Proof.
  intros (d1 & E1 & F1) (d2 & E2 & F2). exists (d1 ++ d2). split.
  - by rewrite E2, E1, app_assoc.
  - by apply Forall_app.
Qed.

Lemma adds_mono (P Q : Entry → Prop) w w' :
  (∀ e, P e → Q e) → adds P w w' → adds Q w w'.
Proof.
  intros HPQ (d & E & F). exists d. split; [done |].
  eapply Forall_impl; eauto.
Qed.

Ltac run := unfold bind, ret, throw, try_catch, get, modify, emit, when.

(** Closes [adds P w w'] when [w'] is [w] under explicit [log]s and
    setters. *)
Ltac solve_adds :=
  unfold adds; simpl; rewrite <- ?app_assoc;
  eexists; split; [reflexivity | repeat constructor; simpl; auto].

(** ** Sample runs *)

(** A sign-out while signed in, with the server out of reach. *)
Example signOut_run :
  trace (snd (signOut signed_in))
  = [ mkEntry (EvLsGet "auth_user") (Some "t1");
      mkEntry (EvLsRemove "auth_user") None;
      mkEntry (EvCookieDelete "auth_user") None;
      mkEntry EvIdbOpen None;
      mkEntry (EvIdbDelete "auth_user") None;
      mkEntry EvGisDisableAutoSelect None;
      mkEntry (EvGisRevoke "ada") None;
      mkEntry (EvFetch (logout_request signed_in (Some "t1"))) None;
      mkEntry (EvNotify 1 None) None;
      mkEntry (EvNotify 2 None) None;
      mkEntry (EvGisInitialize "client-id") None ].
Proof. vm_compute. reflexivity. Qed.

(** A request with an expired token: 401, refresh, retry. *)
Example authenticatedFetch_run :
  fetched (snd (authenticatedFetch "https://api/items" get_items
                  token_expired))
  = [ authorized_request "https://api/items" get_items "t1";
      refresh_request token_expired;
      authorized_request "https://api/items" get_items "t2" ]
  ∧ fst (authenticatedFetch "https://api/items" get_items token_expired)
    = Ok (mkResp 200 None).
Proof. vm_compute. split; reflexivity. Qed.

(** A reload with the refresh cookie rejected: the refresh request, the
    sign-out it triggers, and the Google script initialised again. *)
Example initializeAuth_rejected_run :
  events (snd (initializeAuth reloaded_rejected))
  = [ EvLsGet "auth_user";
      EvFetch (refresh_request reloaded_rejected);
      EvLsGet "auth_user"; EvLsRemove "auth_user";
      EvCookieDelete "auth_user"; EvIdbOpen; EvIdbDelete "auth_user";
      EvGisDisableAutoSelect; EvGisRevoke "ada";
      EvNotify 1 None; EvNotify 2 None;
      EvGisInitialize "client-id"; EvGisInitialize "client-id" ].
Proof. vm_compute. reflexivity. Qed.

(** A read that finds the value in IndexedDB only, and one that finds
    it in localStorage only (the IndexedDB write lands on settling). *)
Example multiGet_runs :
  events (snd (multiGet "auth_user" only_idb))
  = [ EvLsGet "auth_user"; EvCookieGet "auth_user"; EvIdbGet "auth_user";
      EvLsSet "auth_user" "ada"; EvCookieSet "auth_user" "ada" ]
  ∧ events (snd (multiGet "k" (set_localStorage {[ "k" := "v" ]} blank)))
    = [ EvLsGet "k"; EvCookieSet "k" "v"; EvIdbOpen ]
  ∧ events (settle
              (snd (multiGet "k" (set_localStorage {[ "k" := "v" ]} blank))))
    = [ EvLsGet "k"; EvCookieSet "k" "v"; EvIdbOpen; EvIdbPut "k" "v" ].
Proof. vm_compute. repeat split. Qed.

(** ** C7: the synchronous read *)

(** C7. [multiGetSync(k)] returns the localStorage value when a guarded
    read finds a non-empty one, otherwise what the cookie read finds
    ([null] when there is none); it leaves the IndexedDB store, the
    cached database promise and the writes in flight as they were, and
    none of the interactions it adds is an IndexedDB one. *)
Theorem multiGetSync_sync_tiers_only (k : string) (w : World) :
  fst (multiGetSync k w)
    = Ok (if truthy_opt (ls_seen w k) then ls_seen w k else cookie_seen w k)
  ∧ idbStore (snd (multiGetSync k w)) = idbStore w
  ∧ dbPromise (snd (multiGetSync k w)) = dbPromise w
  ∧ pending (snd (multiGetSync k w)) = pending w
  ∧ localStorage (snd (multiGetSync k w)) = localStorage w
  ∧ cookieJar (snd (multiGetSync k w)) = cookieJar w
  ∧ adds (λ e, is_idb_event (ev e) = false) w (snd (multiGetSync k w)).
Proof.
  destruct w as [c t cbs db ls ck idb pd f gl ga jp js sv tr].
  unfold multiGetSync, ls_getItem_try, getCookie, ls_seen, cookie_seen. run.
  simpl.
  destruct (ls_get_throws f); simpl.
  - destruct (cookie_get_throws f); simpl; repeat split; solve_adds.
  - destruct (truthy_opt (ls !! k)); simpl.
    + repeat split; solve_adds.
    + destruct (cookie_get_throws f); simpl; repeat split; solve_adds.
Qed.

Ltac storage_unfold :=
  unfold multiSet, multiGet, multiGetSync, multiRemove, setIndexedDB,
    getIndexedDB, deleteIndexedDB, setIndexedDB_detached, getDB, idb_put,
    idb_get, idb_delete, ls_setItem_try, ls_getItem_try, ls_removeItem_try,
    setCookie, getCookie, deleteCookie;
  run.

(** ** C9: the empty string *)

(** C9, as amended.  After [multiSet(k, '')] has succeeded in all three
    tiers, each tier holds the empty string under [k]; [multiGet(k)] and
    [multiGetSync(k)] hand that empty string back (it is the value of
    the last tier probed), not [null].  It is falsy, so no tier counts
    as a hit and the read repairs nothing. *)
Theorem empty_string_is_returned_unrepaired (k : string) (w : World) :
  healthy w →
  let w1 := snd (multiSet k (JString EmptyString) w) in
  fst (multiSet k (JString EmptyString) w) = Ok tt
  ∧ localStorage w1 !! k = Some EmptyString
  ∧ cookieJar w1 !! k = Some EmptyString
  ∧ idbStore w1 !! k = Some EmptyString
  ∧ fst (multiGet k w1) = Ok (Some EmptyString)
  ∧ fst (multiGetSync k w1) = Ok (Some EmptyString)
  ∧ truthy_opt (Some EmptyString) = false
  ∧ localStorage (snd (multiGet k w1)) = localStorage w1
  ∧ cookieJar (snd (multiGet k w1)) = cookieJar w1
  ∧ idbStore (snd (multiGet k w1)) = idbStore w1
  ∧ pending (snd (multiGet k w1)) = pending w1.
Proof.
  intros [Hf Hdb]. destruct w as [c t cbs db ls ck idb pd f gl ga jp js sv tr].
  simpl in Hf, Hdb. subst f.
  storage_unfold. simpl.
  destruct db as [[|]|]; [ | done | ]; simpl.
  all: repeat (progress (simpl; rewrite ?lookup_insert_eq)).
  all: repeat split; reflexivity.
Qed.

Lemma empty_string_is_returned_unrepaired_witness :
  healthy blank
  ∧ fst (multiGet "k" (snd (multiSet "k" (JString EmptyString) blank))) = Ok (Some EmptyString)
  ∧ fst (multiGetSync "k" (snd (multiSet "k" (JString EmptyString) blank)))
    = Ok (Some EmptyString).
Proof.
  assert (H : healthy blank) by (split; [reflexivity | discriminate]).
  split; [exact H |].
  destruct (empty_string_is_returned_unrepaired "k" blank H)
    as (_ & _ & _ & _ & Hget & Hsync & _).
  split; [exact Hget | exact Hsync].
Defined.

(** C9 as stated fails: with all three tiers holding the empty string,
    neither read returns [null]. *)
Lemma empty_string_reads_are_not_null :
  fst (multiSet "k" (JString EmptyString) blank) = Ok tt
  ∧ fst (multiGet "k" (snd (multiSet "k" (JString EmptyString) blank))) = Ok (Some EmptyString)
  ∧ fst (multiGet "k" (snd (multiSet "k" (JString EmptyString) blank))) ≠ Ok None
  ∧ fst (multiGetSync "k" (snd (multiSet "k" (JString EmptyString) blank)))
    = Ok (Some EmptyString)
  ∧ fst (multiGetSync "k" (snd (multiSet "k" (JString EmptyString) blank))) ≠ Ok None.
Proof. vm_compute. repeat split; discriminate. Qed.

(** ** C4: read repair *)

Lemma settle_puts_app l1 l2 w :
  settle_puts (l1 ++ l2) w = settle_puts l2 (settle_puts l1 w).
Proof.
  revert w. induction l1 as [| [k v] l1 IH]; intros w; simpl; [done |].
  apply IH.
Qed.

Lemma settle_puts_faults l w : faults (settle_puts l w) = faults w.
Proof.
  revert w. induction l as [| [k v] l IH]; intros w; simpl; [done |].
  rewrite IH. destruct w as [c t cbs db ls ck idb pd f gl ga jp js sv tr].
  unfold idb_put. run. simpl.
  by destruct (idb_put_fails f).
Qed.

Lemma settle_last_put k v l w :
  pending w = l ++ [(k, v)] →
  idb_put_fails (faults w) = false →
  idbStore (settle w) !! k = Some v.
Proof.
  intros Hp Hf. unfold settle. rewrite Hp, settle_puts_app. simpl.
  assert (Hf' : idb_put_fails (faults (settle_puts l (set_pending [] w))) = false).
  { rewrite settle_puts_faults. by destruct w. }
  destruct (settle_puts l (set_pending [] w))
    as [c t cbs db ls ck idb pd f gl ga jp js sv tr].
  unfold idb_put. run. simpl in *. rewrite Hf'. simpl.
  apply lookup_insert_eq.
Qed.

(** C4. With the three engines working and [v] a value the code takes
    for present (a non-empty string): probing goes localStorage, then
    cookie, then IndexedDB, and the first hit is returned; when exactly
    one tier holds [v], the other two are rewritten with it.  The two
    synchronous tiers are rewritten before [multiGet] returns; a write
    to IndexedDB is left in flight and lands when the event loop
    settles. *)
Theorem multiGet_read_repair (k v : string) (w : World) :
  healthy w → v ≠ EmptyString →
  (localStorage w !! k = Some v → fst (multiGet k w) = Ok (Some v))
  ∧ (missing (localStorage w) k → cookieJar w !! k = Some v →
     fst (multiGet k w) = Ok (Some v))
  ∧ (missing (localStorage w) k → missing (cookieJar w) k →
     idbStore w !! k = Some v →
     fst (multiGet k w) = Ok (Some v))
  ∧ (localStorage w !! k = Some v → missing (cookieJar w) k →
     missing (idbStore w) k →
     localStorage (snd (multiGet k w)) !! k = Some v
     ∧ cookieJar (snd (multiGet k w)) !! k = Some v
     ∧ idbStore (settle (snd (multiGet k w))) !! k = Some v)
  ∧ (missing (localStorage w) k → cookieJar w !! k = Some v →
     missing (idbStore w) k →
     localStorage (snd (multiGet k w)) !! k = Some v
     ∧ cookieJar (snd (multiGet k w)) !! k = Some v
     ∧ idbStore (settle (snd (multiGet k w))) !! k = Some v)
  ∧ (missing (localStorage w) k → missing (cookieJar w) k →
     idbStore w !! k = Some v →
     localStorage (snd (multiGet k w)) !! k = Some v
     ∧ cookieJar (snd (multiGet k w)) !! k = Some v
     ∧ idbStore (snd (multiGet k w)) !! k = Some v).
Proof.
  intros [Hf Hdb] Hv. apply truthy_true in Hv.
  destruct w as [c t cbs db ls ck idb pd f gl ga jp js sv tr].
  unfold missing. simpl in *. subst f.
  destruct db as [[|]|]; [ | done | ].
  all: repeat split; intros.
  all: try match goal with
           | |- idbStore (settle _) !! _ = _ => eapply (settle_last_put k v pd)
           end.
  all: storage_unfold; simpl.
  all: repeat (progress (simpl; rewrite ?lookup_insert_eq;
                         repeat match goal with
                                | H : _ = _ |- _ => progress rewrite H
                                end)).
  all: reflexivity.
Qed.

Lemma multiGet_read_repair_witness :
  healthy only_idb ∧ "ada" ≠ EmptyString
  ∧ missing (localStorage only_idb) "auth_user"
  ∧ missing (cookieJar only_idb) "auth_user"
  ∧ idbStore only_idb !! "auth_user" = Some "ada"
  ∧ fst (multiGet "auth_user" only_idb) = Ok (Some "ada")
  ∧ localStorage (snd (multiGet "auth_user" only_idb)) !! "auth_user"
    = Some "ada"
  ∧ cookieJar (snd (multiGet "auth_user" only_idb)) !! "auth_user"
    = Some "ada".
Proof.
  assert (H : healthy only_idb) by (split; [reflexivity | discriminate]).
  assert (Hv : "ada" ≠ EmptyString) by discriminate.
  assert (Hls : missing (localStorage only_idb) "auth_user") by reflexivity.
  assert (Hck : missing (cookieJar only_idb) "auth_user") by reflexivity.
  assert (Hidb : idbStore only_idb !! "auth_user" = Some "ada")
    by (vm_compute; reflexivity).
  destruct (multiGet_read_repair "auth_user" "ada" only_idb H Hv)
    as (_ & _ & Hget & _ & _ & Hrep).
  destruct (Hrep Hls Hck Hidb) as (Hl & Hc & _).
  exact (conj H (conj Hv (conj Hls (conj Hck (conj Hidb
           (conj (Hget Hls Hck Hidb) (conj Hl Hc))))))).
Defined.



(** ** C2: tier failures *)

(** C2 as stated fails, in two ways.  (1) localStorage holds ["old"]
    under [k] and rejects the write: exactly one tier fails during
    [multiSet(k, "new")], the two others take the new value, and
    [multiGet(k)] returns ["old"] (and writes it back over the
    others).  (2) The database cannot be opened, so exactly one tier
    fails during [multiSet(k, '')]; localStorage and the cookie hold
    the empty string, which no probe takes for a value, and
    [multiGet(k)] returns [null]. *)
Lemma write_then_read_differs :
  failing_tiers stale_ls = 1
  ∧ fst (multiSet "k" (JString "new") stale_ls) = Ok tt
  ∧ cookieJar (snd (multiSet "k" (JString "new") stale_ls)) !! "k"
    = Some "new"
  ∧ idbStore (snd (multiSet "k" (JString "new") stale_ls)) !! "k"
    = Some "new"
  ∧ fst (multiGet "k" (snd (multiSet "k" (JString "new") stale_ls)))
    = Ok (Some "old")
  ∧ fst (multiGet "k" (snd (multiSet "k" (JString "new") stale_ls)))
    ≠ Ok (Some "new")
  ∧ failing_tiers idb_down = 1
  ∧ fst (multiSet "k" (JString EmptyString) idb_down) = Ok tt
  ∧ fst (multiGet "k" (snd (multiSet "k" (JString EmptyString) idb_down)))
    = Ok None
  ∧ fst (multiGet "k" (snd (multiSet "k" (JString EmptyString) idb_down)))
    ≠ Ok (Some EmptyString).
Proof. vm_compute. repeat split; discriminate. Qed.

(** An erroring [store.put] request is not absorbed: the promise
    [setIndexedDB] returns is built inside the [try] but not awaited
    there, so its rejection is [multiSet]'s. *)
Lemma put_request_error_escapes :
  fst (multiSet "k" (JString "v") put_errors) = Throw StorageError.
Proof. vm_compute. reflexivity. Qed.

Lemma multiSet_completes k value w :
  idb_put_fails (faults w) = false → fst (multiSet k value w) = Ok tt.
Proof.
  destruct w as [c t cbs db ls ck idb pd f gl ga jp js sv tr].
  destruct f as [f1 f2 f3 f4 f5 f6 f7 f8 f9 f10]. simpl. intros ->.
  storage_unfold. simpl.
  destruct f2, f5, db as [[|]|], f7; reflexivity.
Qed.

Lemma multiRemove_completes k w :
  idb_delete_fails (faults w) = false → fst (multiRemove k w) = Ok tt.
Proof.
  destruct w as [c t cbs db ls ck idb pd f gl ga jp js sv tr].
  destruct f as [f1 f2 f3 f4 f5 f6 f7 f8 f9 f10]. simpl. intros ->.
  storage_unfold. simpl.
  destruct f3, f6, db as [[|]|], f7; reflexivity.
Qed.

Lemma multiGet_completes k w :
  idb_get_fails (faults w) = false → ∃ r, fst (multiGet k w) = Ok r.
Proof.
  destruct w as [c t cbs db ls ck idb pd f gl ga jp js sv tr].
  destruct f as [f1 f2 f3 f4 f5 f6 f7 f8 f9 f10]. simpl. intros ->.
  storage_unfold. simpl.
  repeat (case_match; simpl in *; simplify_eq); eauto.
Qed.

Lemma write_then_read k v w :
  idb_requests_ok (faults w) → v ≠ EmptyString → (failing_tiers w ≤ 1)%nat →
  (ls_set_throws (faults w) = true → ls_get_throws (faults w) = false →
   missing (localStorage w) k ∨ localStorage w !! k = Some v) →
  fst (multiGet k (snd (multiSet k (JString v) w))) = Ok (Some v).
Proof.
  destruct w as [c t cbs db ls ck idb pd f gl ga jp js sv tr].
  destruct f as [f1 f2 f3 f4 f5 f6 f7 f8 f9 f10].
  unfold idb_requests_ok, failing_tiers, ls_fails, cookie_fails, idb_fails,
    missing.
  simpl. intros (-> & -> & ->) Hv Hn Hstale. apply truthy_true in Hv.
  destruct f1, f2, f4, f5, db as [[|]|], f7; simpl in Hn; try lia.
  all: try (destruct (Hstale eq_refl eq_refl) as [Hs | Hs]).
  all: clear Hstale; storage_unfold.
  all: repeat (progress (simpl; rewrite ?lookup_insert_eq, ?Hv, ?Hs)).
  all: reflexivity.
Qed.


(** C2, as amended.  Whatever localStorage, the cookie jar and the
    opening of the database do, [multiSet], [multiGet] and [multiRemove]
    complete without raising -- the case of an individual IndexedDB
    request erroring is left out.  [multiSet(k, v)] followed by
    [multiGet(k)] returns [v] when [v] is a non-empty string, at most
    one tier fails, and a localStorage that rejects the write (but can
    be read) does not already hold another non-empty value under
    [k]. *)
Theorem storage_absorbs_tier_failures (k : string) (value : JsValue)
    (w : World) :
  idb_requests_ok (faults w) →
  fst (multiSet k value w) = Ok tt
  ∧ (∃ r, fst (multiGet k w) = Ok r)
  ∧ fst (multiRemove k w) = Ok tt
  ∧ (∀ v, value = JString v → v ≠ EmptyString → (failing_tiers w ≤ 1)%nat →
       (ls_set_throws (faults w) = true → ls_get_throws (faults w) = false →
        missing (localStorage w) k ∨ localStorage w !! k = Some v) →
       fst (multiGet k (snd (multiSet k value w))) = Ok (Some v)).
Proof.
  intros Hok. pose proof Hok as (Hput & Hget & Hdel).
  split; [by apply multiSet_completes |].
  split; [by apply multiGet_completes |].
  split; [by apply multiRemove_completes |].
  intros v -> Hv Hn Hstale. by apply write_then_read.
Qed.

Lemma storage_absorbs_tier_failures_witness :
  idb_requests_ok (faults ls_down)
  ∧ "v" ≠ EmptyString ∧ (failing_tiers ls_down ≤ 1)%nat
  ∧ fst (multiSet "k" (JString "v") ls_down) = Ok tt
  ∧ fst (multiRemove "k" ls_down) = Ok tt
  ∧ fst (multiGet "k" (snd (multiSet "k" (JString "v") ls_down)))
    = Ok (Some "v").
Proof.
  assert (H : idb_requests_ok (faults ls_down)) by (repeat split).
  assert (Hv : "v" ≠ EmptyString) by discriminate.
  assert (Hn : (failing_tiers ls_down ≤ 1)%nat) by (vm_compute; lia).
  destruct (storage_absorbs_tier_failures "k" (JString "v") ls_down H)
    as (Hset & _ & Hrem & Hrt).
  refine (conj H (conj Hv (conj Hn (conj Hset (conj Hrem _))))).
  apply (Hrt "v" eq_refl Hv Hn). intros _ Hget. discriminate Hget.
Defined.

(** ** Stepping through a computation *)

Lemma bind_inv {A B} (m : M A) (f : A → M B) w r w' :
  bind m f w = (r, w') →
  (∃ a w1, m w = (Ok a, w1) ∧ f a w1 = (r, w'))
  ∨ (∃ e, m w = (Throw e, w') ∧ r = Throw e).
Proof.
  unfold bind. destruct (m w) as [[a | e] w1]; intros H.
  - left. eauto.
  - right. inversion H; subst. eauto.
Qed.

Lemma try_catch_inv {A} (m : M A) (h : Error → M A) w r w' :
  try_catch m h w = (r, w') →
  (∃ a, m w = (Ok a, w') ∧ r = Ok a)
  ∨ (∃ e w1, m w = (Throw e, w1) ∧ h e w1 = (r, w')).
Proof.
  unfold try_catch. destruct (m w) as [[a | e] w1]; intros H.
  - left. inversion H; subst. eauto.
  - right. eauto.
Qed.

(** ** Frames *)

Lemma same_setup_refl w : same_setup w w.
Proof. by repeat split. Qed.

Lemma same_setup_trans w1 w2 w3 :
  same_setup w1 w2 → same_setup w2 w3 → same_setup w1 w3.
Proof.
  unfold same_setup. intros (?&?&?&?&?&?&?) (?&?&?&?&?&?&?).
  repeat split; congruence.
Qed.

Lemma same_session_refl w : same_session w w.
Proof. by split. Qed.

Lemma same_session_trans w1 w2 w3 :
  same_session w1 w2 → same_session w2 w3 → same_session w1 w3.
Proof. unfold same_session. intros (?&?) (?&?). split; congruence. Qed.

Lemma same_stores_refl w : same_stores w w.
Proof. by repeat split. Qed.

Lemma same_stores_trans w1 w2 w3 :
  same_stores w1 w2 → same_stores w2 w3 → same_stores w1 w3.
Proof.
  unfold same_stores. intros (?&?&?&?&?) (?&?&?&?&?).
  repeat split; congruence.
Qed.

Lemma log_frame e w :
  same_setup w (log e w) ∧ same_session w (log e w)
  ∧ same_stores w (log e w)
  ∧ trace (log e w) = trace w ++ [mkEntry e (accessToken w)].
Proof. destruct w. by repeat split. Qed.

Lemma set_accessToken_frame t w :
  same_setup w (set_accessToken t w)
  ∧ same_stores w (set_accessToken t w)
  ∧ gis_loaded (set_accessToken t w) = gis_loaded w
  ∧ trace (set_accessToken t w) = trace w
  ∧ accessToken (set_accessToken t w) = t.
Proof. destruct w. by repeat split. Qed.

Lemma adds_log (P : Entry → Prop) e w w' :
  adds P w w' → P (mkEntry e (accessToken w')) → adds P w (log e w').
Proof.
  intros (d & E & F) HP. exists (d ++ [mkEntry e (accessToken w')]).
  destruct (log_frame e w') as (_ & _ & _ & ->). split.
  - by rewrite E, app_assoc.
  - apply Forall_app. split; [done | by constructor].
Qed.

Lemma adds_same_trace (P : Entry → Prop) w w' w'' :
  adds P w w' → trace w'' = trace w' → adds P w w''.
Proof. intros (d & E & F) Ht. exists d. by rewrite Ht. Qed.

(** ** Requests and notifications in a trace *)

Lemma requests_of_app l1 l2 :
  requests_of (l1 ++ l2) = requests_of l1 ++ requests_of l2.
Proof.
  induction l1 as [| e l1 IH]; simpl; [done |].
  destruct e; simpl; by rewrite ?IH.
Qed.

Lemma requests_of_none l :
  Forall (λ e, is_fetch e = false) l → requests_of l = [].
Proof.
  induction 1 as [| e l He _ IH]; simpl; [done |].
  destruct e; simpl in *; done.
Qed.

Lemma fetched_log e w :
  fetched (log e w) = fetched w ++ requests_of [e].
Proof.
  unfold fetched, events. destruct (log_frame e w) as (_ & _ & _ & ->).
  by rewrite fmap_app, requests_of_app.
Qed.

Lemma adds_fetched (P : Entry → Prop) w w' :
  adds P w w' → (∀ e, P e → is_fetch (ev e) = false) →
  fetched w' = fetched w.
Proof.
  intros (d & E & F) HP. unfold fetched, events.
  rewrite E, fmap_app, requests_of_app.
  rewrite (requests_of_none (ev <$> d)); [by rewrite app_nil_r |].
  apply Forall_fmap. eapply Forall_impl; [exact F |]. exact HP.
Qed.

Lemma adds_notified (P : Entry → Prop) w w' :
  adds P w w' → (∀ e, P e → is_notify (ev e) = false) →
  notified w' = notified w.
Proof.
  intros (d & E & F) HP. unfold notified, events.
  rewrite E, fmap_app, filter_app.
  assert (Hnil : filter is_notify (ev <$> d) = []).
  { clear E. induction F as [| e d He _ IH]; [done |].
    rewrite fmap_cons, filter_cons. rewrite (HP e He). simpl. exact IH. }
  by rewrite Hnil, app_nil_r.
Qed.

(** ** What each operation does to the world *)

Ltac frames :=
  unfold same_setup, same_session, same_stores; simpl; repeat split.

Ltac solve_stamped :=
  first
    [ apply adds_refl
    | unfold adds, stamped; simpl; rewrite <- ?app_assoc;
      eexists; split; [reflexivity | repeat constructor; simpl; auto] ].

Lemma multiGetSync_spec k w r w' :
  multiGetSync k w = (r, w') →
  r = Ok (sync_view w k)
  ∧ same_setup w w' ∧ same_session w w' ∧ same_stores w w'
  ∧ adds (stamped (accessToken w) is_sync_read) w w'.
Proof.
  destruct w as [c t cbs db ls ck idb pd f gl ga jp js sv tr].
  unfold sync_view, ls_seen, cookie_seen. storage_unfold. simpl.
  destruct (ls_get_throws f); simpl.
  - destruct (cookie_get_throws f); simpl; intros [= <- <-];
      (split; [reflexivity |]); frames; solve_stamped.
  - destruct (truthy_opt (ls !! k)); simpl.
    + intros [= <- <-]. (split; [reflexivity |]); frames; solve_stamped.
    + destruct (cookie_get_throws f); simpl; intros [= <- <-];
        (split; [reflexivity |]); frames; solve_stamped.
Qed.

Lemma getCurrentUserSync_spec w r w' :
  getCurrentUserSync w = (r, w') →
  r = Ok (cached_identity w)
  ∧ same_setup w w' ∧ same_session w w' ∧ same_stores w w'
  ∧ adds (stamped (accessToken w) is_sync_read) w w'.
Proof.
  unfold getCurrentUserSync, cached_identity. intros H.
  apply bind_inv in H as [(key & w1 & E1 & H) | (e & E1 & _)];
    [| discriminate E1].
  injection E1 as <- <-.
  apply bind_inv in H as [(s & w1 & E1 & H) | (e & E1 & _)].
  - apply multiGetSync_spec in E1 as (Hr & Hsu & Hse & Hst & Ha).
    injection Hr as ->.
    assert (Hjp : JSON_parse w1 = JSON_parse w) by apply Hsu.
    destruct (sync_view w (getStorageKeys_user w)) as [s |].
    + destruct (truthy s).
      * injection H as <- <-. by rewrite Hjp.
      * by injection H as <- <-.
    + by injection H as <- <-.
  - apply multiGetSync_spec in E1 as (Hr & _). discriminate Hr.
Qed.

Lemma multiRemove_spec k w r w' :
  multiRemove k w = (r, w') →
  same_setup w w' ∧ same_session w w'
  ∧ (∃ d, trace w' = trace w ++ mkEntry (EvLsRemove k) (accessToken w) :: d
          ∧ Forall (stamped (accessToken w) is_storage) d)
  ∧ (idb_delete_fails (faults w) = false → r = Ok tt)
  ∧ (removal_healthy w →
     localStorage w' !! k = None ∧ cookieJar w' !! k = None
     ∧ idbStore w' !! k = None).
Proof.
  destruct w as [c t cbs db ls ck idb pd f gl ga jp js sv tr].
  destruct f as [f1 f2 f3 f4 f5 f6 f7 f8 f9 f10].
  unfold removal_healthy, idb_fails. storage_unfold. simpl.
  destruct f3, f6, db as [[|]|], f7, f10; simpl; intros [= <- <-].
  all: frames; try done.
  all: try (unfold stamped; simpl; rewrite <- ?app_assoc; simpl;
            eexists; split; [reflexivity | repeat constructor; simpl; auto]).
  all: try match goal with
           | H : _ ∧ _ |- _ => destruct H as (? & ? & ? & ?); try done
           end.
  all: apply lookup_delete_eq.
Qed.

Lemma notifyAuthStateChange_trace u cbs w :
  let w' := foldl (λ w' cb, log (EvNotify cb u) w') w cbs in
  same_setup w w' ∧ same_session w w' ∧ same_stores w w'
  ∧ trace w' = trace w ++ ((λ cb, mkEntry (EvNotify cb u) (accessToken w)) <$> cbs).
Proof.
  revert w. induction cbs as [| cb cbs IH]; intros w; simpl.
  - split; [apply same_setup_refl |]. split; [apply same_session_refl |].
    split; [apply same_stores_refl |]. by rewrite app_nil_r.
  - destruct (IH (log (EvNotify cb u) w)) as (Hsu & Hse & Hst & Ht).
    destruct (log_frame (EvNotify cb u) w) as (Lsu & Lse & Lst & Lt).
    split; [eapply same_setup_trans; eauto |].
    split; [eapply same_session_trans; eauto |].
    split; [eapply same_stores_trans; eauto |].
    rewrite Ht, Lt, <- app_assoc. simpl. by destruct Lse as [-> _].
Qed.

Lemma notifyAuthStateChange_spec u w r w' :
  notifyAuthStateChange u w = (r, w') →
  r = Ok tt
  ∧ same_setup w w' ∧ same_session w w' ∧ same_stores w w'
  ∧ trace w'
    = trace w
      ++ ((λ cb, mkEntry (EvNotify cb u) (accessToken w))
            <$> authStateCallbacks w).
Proof.
  unfold notifyAuthStateChange. intros [= <- <-].
  split; [done |]. apply notifyAuthStateChange_trace.
Qed.

Lemma initGoogleAuth_spec w r w' :
  try_catch initGoogleAuth (λ _, ret tt) w = (r, w') →
  r = Ok tt
  ∧ same_setup w w' ∧ accessToken w' = accessToken w ∧ same_stores w w'
  ∧ adds (stamped (accessToken w) is_gis) w w'.
Proof.
  destruct w as [c t cbs db ls ck idb pd f gl ga jp js sv tr].
  unfold initGoogleAuth. run. simpl.
  destruct (truthy (cfg_clientId c)), gl, ga; simpl; intros [= <- <-].
  all: (split; [reflexivity |]); frames; solve_stamped.
Qed.

Lemma fetch_eq req w :
  fetch req w
  = (match server w (fetched w) req with
     | Responded resp => Ok resp
     | NetworkError => Throw FetchFailed
     end, log (EvFetch req) w).
Proof. unfold fetch, fetched. by destruct (server w _ req). Qed.

Ltac step_pure H :=
  apply bind_inv in H as [(? & ? & [= <- <-] & H) | (? & [=] & _)].

Lemma gis_teardown_spec (user : option GoogleUser) loaded w r w' :
  when loaded
    (do! emit EvGisDisableAutoSelect in
     match user with
     | Some u => when (truthy (email u)) (emit (EvGisRevoke (email u)))
     | None => ret tt
     end) w = (r, w') →
  r = Ok tt
  ∧ same_setup w w' ∧ same_session w w' ∧ same_stores w w'
  ∧ adds (stamped (accessToken w) is_gis) w w'.
Proof.
  destruct w as [c t cbs db ls ck idb pd f gl ga jp js sv tr].
  run. destruct loaded; simpl.
  - destruct user as [u |]; [destruct (truthy (email u)) |]; simpl;
      intros [= <- <-]; (split; [reflexivity |]); frames; solve_stamped.
  - intros [= <- <-]. (split; [reflexivity |]); frames; solve_stamped.
Qed.

Lemma logout_call_spec (token : option string) w r w' :
  try_catch
    (if truthy_opt token
     then let! req := get (λ w, logout_request w token) in
          do! fetch req in ret tt
     else ret tt)
    (λ _, ret tt) w = (r, w') →
  r = Ok tt
  ∧ w' = (if truthy_opt token
          then log (EvFetch (logout_request w token)) w else w).
Proof.
  destruct (truthy_opt token); run.
  - rewrite fetch_eq. destruct (server w (fetched w) _); by intros [= <- <-].
  - by intros [= <- <-].
Qed.

Lemma fetched_same_trace w w' : trace w' = trace w → fetched w' = fetched w.
Proof. unfold fetched, events. by intros ->. Qed.

Lemma notified_same_trace w w' :
  trace w' = trace w → notified w' = notified w.
Proof. unfold notified, events. by intros ->. Qed.

Lemma notified_log e w :
  notified (log e w) = notified w ++ filter is_notify [e].
Proof.
  unfold notified, events. destruct (log_frame e w) as (_ & _ & _ & ->).
  by rewrite fmap_app, filter_app.
Qed.

Lemma filter_notifications (u : option GoogleUser) (cbs : list Callback) :
  filter is_notify ((λ cb, EvNotify cb u) <$> cbs)
  = (λ cb, EvNotify cb u) <$> cbs.
Proof.
  induction cbs as [| cb cbs IH]; [done |].
  rewrite fmap_cons, filter_cons. simpl. by rewrite IH.
Qed.

Lemma notifyAuthStateChange_effect u w r w' :
  notifyAuthStateChange u w = (r, w') →
  adds (stamped (accessToken w) is_notify) w w'
  ∧ fetched w' = fetched w
  ∧ notified w'
    = notified w ++ ((λ cb, EvNotify cb u) <$> authStateCallbacks w).
Proof.
  intros H. apply notifyAuthStateChange_spec in H as (_ & _ & _ & _ & Ht).
  assert (Ha : adds (stamped (accessToken w) is_notify) w w').
  { eexists. split; [exact Ht |]. apply Forall_fmap, Forall_forall.
    intros cb _. by split. }
  split; [exact Ha |]. split.
  - eapply adds_fetched; [exact Ha |]. intros e [He _].
    by destruct (ev e).
  - unfold notified, events. rewrite Ht, fmap_app, filter_app.
    rewrite <- list_fmap_compose. simpl.
    f_equal. apply filter_notifications.
Qed.

Lemma signOut_spec w r w' :
  signOut w = (r, w') →
  same_setup w w'
  ∧ accessToken w' = None
  ∧ (∃ reads rest,
       trace w'
       = trace w ++ reads
         ++ mkEntry (EvLsRemove (getStorageKeys_user w)) None :: rest
       ∧ Forall (stamped (accessToken w) is_sync_read) reads
       ∧ Forall (λ e, token_then e = None) rest)
  ∧ (idb_delete_fails (faults w) = false →
     r = Ok tt
     ∧ fetched w'
       = fetched w
         ++ (if truthy_opt (accessToken w)
             then [logout_request w (accessToken w)] else [])
     ∧ notified w'
       = notified w ++ ((λ cb, EvNotify cb None) <$> authStateCallbacks w))
  ∧ (removal_healthy w →
     localStorage w' !! getStorageKeys_user w = None
     ∧ cookieJar w' !! getStorageKeys_user w = None
     ∧ idbStore w' !! getStorageKeys_user w = None).
Proof.
  unfold signOut. intros H.
  apply bind_inv in H as [(user & w1 & E1 & H) | (e & E1 & _)]; cycle 1.
  { apply getCurrentUserSync_spec in E1 as (Hr & _). discriminate Hr. }
  apply getCurrentUserSync_spec in E1 as (_ & Hsu1 & Hse1 & Hst1 & Ha1).
  step_pure H. step_pure H. step_pure H.
  destruct (set_accessToken_frame None w1) as (Hsu2 & Hst2 & Hgl2 & Ht2 & Htok2).
  set (w2 := set_accessToken None w1) in *.
  assert (Hsu02 : same_setup w w2) by (eapply same_setup_trans; eauto).
  assert (Hkey : getStorageKeys_user w2 = getStorageKeys_user w).
  { unfold getStorageKeys_user. by destruct Hsu02 as (-> & _). }
  assert (Hf2 : faults w2 = faults w) by apply Hsu02.
  destruct Ha1 as (reads & Hreads & Freads).
  assert (Ha1 : adds (stamped (accessToken w) is_sync_read) w w1)
    by (exists reads; by split).
  assert (Hfe2 : fetched w2 = fetched w).
  { rewrite (fetched_same_trace w1 w2 Ht2).
    eapply adds_fetched; [exact Ha1 |]. intros e [He _]. by destruct (ev e). }
  assert (Hno2 : notified w2 = notified w).
  { rewrite (notified_same_trace w1 w2 Ht2).
    eapply adds_notified; [exact Ha1 |]. intros e [He _]. by destruct (ev e). }
  assert (Hrh : removal_healthy w → removal_healthy w2).
  { unfold removal_healthy, idb_fails. rewrite Hf2.
    destruct Hst1 as (_ & _ & _ & Hdb1 & _).
    destruct Hst2 as (_ & _ & _ & Hdb2 & _).
    by rewrite Hdb2, Hdb1. }
  rewrite Hkey in H.
  apply bind_inv in H as [(? & w3 & E3 & H) | (e & E3 & ->)]; cycle 1.
  { (* the IndexedDB delete request errored *)
    apply multiRemove_spec in E3
      as (Hsu3 & Hse3 & (d3 & Hd3 & Fd3) & Hok3 & Hrm3).
    rewrite Hf2 in Hok3. rewrite Htok2, Ht2, Hreads in Hd3.
    split; [eapply same_setup_trans; eauto |].
    split; [destruct Hse3 as [-> _]; exact Htok2 |].
    split.
    { exists reads, d3. split; [by rewrite Hd3, <- app_assoc |].
      split; [exact Freads |]. eapply Forall_impl; [exact Fd3 |].
      intros e0 [_ He0]. by rewrite He0. }
    split; [intros Hd; by specialize (Hok3 Hd) |].
    intros Hh. destruct (Hh) as (_ & _ & Hd & _). by specialize (Hok3 Hd). }
  apply multiRemove_spec in E3
    as (Hsu3 & Hse3 & (d3 & Hd3 & Fd3) & _ & Hrm3).
  assert (Ha3 : adds (stamped (accessToken w2) is_storage) w2 w3).
  { eexists. split; [exact Hd3 |]. constructor; [by split | exact Fd3]. }
  rewrite Htok2, Ht2, Hreads in Hd3.
  step_pure H.
  apply bind_inv in H as [(? & w4 & E4 & H) | (e & E4 & _)]; cycle 1.
  { apply gis_teardown_spec in E4 as (Hr & _). discriminate Hr. }
  apply gis_teardown_spec in E4 as (_ & Hsu4 & Hse4 & Hst4 & Ha4).
  apply bind_inv in H as [(? & w5 & E5 & H) | (e & E5 & _)]; cycle 1.
  { apply logout_call_spec in E5 as (Hr & _). discriminate Hr. }
  apply logout_call_spec in E5 as (_ & Hw5).
  apply bind_inv in H as [(? & w6 & E6 & H) | (e & E6 & _)]; cycle 1.
  { apply notifyAuthStateChange_spec in E6 as (Hr & _). discriminate Hr. }
  pose proof (notifyAuthStateChange_effect _ _ _ _ E6) as (Ha6 & Hfe6 & Hno6).
  apply notifyAuthStateChange_spec in E6 as (_ & Hsu6 & Hse6 & Hst6 & _).
  apply initGoogleAuth_spec in H as (-> & Hsu7 & Htok7 & Hst7 & Ha7).
  (* the token along the way *)
  assert (Htok3 : accessToken w3 = None) by (destruct Hse3 as [-> _]; done).
  assert (Htok4 : accessToken w4 = None) by (destruct Hse4 as [-> _]; done).
  assert (Hsu04 : same_setup w w4).
  { eapply same_setup_trans; [exact Hsu02 |].
    eapply same_setup_trans; eauto. }
  destruct Hse1 as [Htok1 _]. rewrite Htok1 in Hw5.
  assert (Hreq : logout_request w4 (accessToken w) = logout_request w (accessToken w)).
  { unfold logout_request. by destruct Hsu04 as (-> & _). }
  rewrite Hreq in Hw5.
  destruct (log_frame (EvFetch (logout_request w (accessToken w))) w4)
    as (Lsu & Lse & Lst & Lt).
  assert (Hsu45 : same_setup w4 w5).
  { rewrite Hw5. destruct (truthy_opt (accessToken w));
      [exact Lsu | apply same_setup_refl]. }
  assert (Hst45 : same_stores w4 w5).
  { rewrite Hw5. destruct (truthy_opt (accessToken w));
      [exact Lst | apply same_stores_refl]. }
  assert (Htok5 : accessToken w5 = None).
  { rewrite Hw5. destruct (truthy_opt (accessToken w)); [| done].
    destruct Lse as [-> _]. done. }
  assert (Ha5 : adds (λ e, token_then e = None) w4 w5).
  { rewrite Hw5. destruct (truthy_opt (accessToken w)); [| apply adds_refl].
    apply adds_log; [apply adds_refl | done]. }
  assert (Htok6 : accessToken w6 = None) by (destruct Hse6 as [-> _]; done).
  assert (Hsu05 : same_setup w w5) by (eapply same_setup_trans; eauto).
  assert (Hsu06 : same_setup w w6) by (eapply same_setup_trans; eauto).
  split; [eapply same_setup_trans; eauto |].
  split; [by rewrite Htok7 |].
  split.
  { assert (Hafter : adds (λ e, token_then e = None) w3 w').
    { eapply adds_trans;
        [eapply adds_mono; [| exact Ha4]; intros e0 [_ He0];
         by rewrite He0, Htok3 |].
      eapply adds_trans; [exact Ha5 |].
      eapply adds_trans;
        [eapply adds_mono; [| exact Ha6]; intros e0 [_ He0];
         by rewrite He0, Htok5 |].
      eapply adds_mono; [| exact Ha7]. intros e0 [_ He0].
      by rewrite He0, Htok6. }
    destruct Hafter as (d4 & Hd4 & Fd4).
    exists reads, (d3 ++ d4). split.
    { rewrite Hd4, Hd3, <- !app_assoc. done. }
    split; [exact Freads |]. apply Forall_app. split; [| exact Fd4].
    eapply Forall_impl; [exact Fd3 |]. intros e0 [_ He0]. by rewrite He0. }
  assert (Hfe3 : fetched w3 = fetched w2).
  { eapply adds_fetched; [exact Ha3 |]. intros e0 [He0 _]. by destruct (ev e0). }
  assert (Hfe4 : fetched w4 = fetched w3).
  { eapply adds_fetched; [exact Ha4 |]. intros e0 [He0 _]. by destruct (ev e0). }
  assert (Hfe7 : fetched w' = fetched w6).
  { eapply adds_fetched; [exact Ha7 |]. intros e0 [He0 _]. by destruct (ev e0). }
  assert (Hno3 : notified w3 = notified w2).
  { eapply adds_notified; [exact Ha3 |]. intros e0 [He0 _]. by destruct (ev e0). }
  assert (Hno4 : notified w4 = notified w3).
  { eapply adds_notified; [exact Ha4 |]. intros e0 [He0 _]. by destruct (ev e0). }
  assert (Hno7 : notified w' = notified w6).
  { eapply adds_notified; [exact Ha7 |]. intros e0 [He0 _]. by destruct (ev e0). }
  split.
  { intros _. split; [done |]. split.
    - rewrite Hfe7, Hfe6, Hw5.
      destruct (truthy_opt (accessToken w)).
      + by rewrite fetched_log, Hfe4, Hfe3, Hfe2.
      + by rewrite Hfe4, Hfe3, Hfe2, app_nil_r.
    - rewrite Hno7, Hno6.
      assert (Hcb : authStateCallbacks w5 = authStateCallbacks w)
        by apply Hsu05.
      rewrite Hcb. f_equal. rewrite Hw5.
      destruct (truthy_opt (accessToken w)).
      + by rewrite notified_log, Hno4, Hno3, Hno2, app_nil_r.
      + by rewrite Hno4, Hno3, Hno2. }
  intros Hh. destruct (Hrm3 (Hrh Hh)) as (Hl & Hc & Hi).
  assert (Hst47 : same_stores w3 w').
  { eapply same_stores_trans; [exact Hst4 |].
    eapply same_stores_trans; [exact Hst45 |].
    eapply same_stores_trans; [exact Hst6 |]. exact Hst7. }
  destruct Hst47 as (-> & -> & -> & _). done.
Qed.

(** ** C5: sign-out *)

(** C5.  The broadcast is not unconditional.  [signOut()] awaits
    [multiRemove] outside any [try], and [deleteIndexedDB] returns its
    request promise without awaiting it, so its [catch] does not see
    the request fail.  Signed in, with two subscribers and a
    [store.delete] request that errors: [signOut()] rejects with the
    storage error; the token is cleared, but no subscriber is notified
    and no logout request is sent. *)
Lemma signOut_rejects_before_the_broadcast :
  authStateCallbacks delete_errors = [1; 2]
  ∧ accessToken delete_errors = Some "t1"
  ∧ fst (signOut delete_errors) = Throw StorageError
  ∧ accessToken (snd (signOut delete_errors)) = None
  ∧ notified (snd (signOut delete_errors)) = []
  ∧ fetched (snd (signOut delete_errors)) = [].
Proof. vm_compute. repeat split. Qed.

(** X26.  The order of a sign-out, and its broadcast when the
    IndexedDB delete request does not error.  [signOut()] always leaves
    the token [null].  What it does splits in two: first the
    synchronous reads of the cached identity, made with the token as it
    was; then everything else, starting with the removal from
    localStorage, all of it made while the token is already [null] --
    so every tear-down step (removal from a storage tier, a call into
    the Google script, the logout request) runs after the token is
    cleared.  When the IndexedDB delete request does not error, then
    whatever the server does with the logout request -- a response of
    any status, or a network failure -- [signOut()] completes and
    notifies every subscriber, in subscription order, with [null]. *)
Theorem signOut_clears_token_first_and_broadcasts (w : World) :
  accessToken (snd (signOut w)) = None
  ∧ (∃ reads rest,
       trace (snd (signOut w))
       = trace w ++ reads
         ++ mkEntry (EvLsRemove (getStorageKeys_user w)) None :: rest
       ∧ Forall (stamped (accessToken w) is_sync_read) reads
       ∧ Forall (λ e, token_then e = None) rest
       ∧ Forall (λ e, is_teardown (ev e) = true → token_then e = None)
           (reads
            ++ mkEntry (EvLsRemove (getStorageKeys_user w)) None :: rest))
  ∧ (idb_delete_fails (faults w) = false →
     fst (signOut w) = Ok tt
     ∧ notified (snd (signOut w))
       = notified w ++ ((λ cb, EvNotify cb None) <$> authStateCallbacks w)).
Proof.
  destruct (signOut w) as [r w'] eqn:E. simpl.
  apply signOut_spec in E
    as (_ & Htok & (reads & rest & Hd & Fr & Fn) & Hok & _).
  split; [exact Htok |]. split.
  - exists reads, rest. split; [exact Hd |]. split; [exact Fr |].
    split; [exact Fn |]. apply Forall_app. split.
    + eapply Forall_impl; [exact Fr |]. intros e [He _] Ht.
      destruct (ev e); discriminate.
    + constructor; [done |]. eapply Forall_impl; [exact Fn |]. auto.
  - intros Hidb. destruct (Hok Hidb) as (-> & _ & Hn). by split.
Qed.

Lemma signOut_clears_token_first_and_broadcasts_witness :
  idb_delete_fails (faults signed_in) = false
  ∧ server signed_in (fetched signed_in)
      (logout_request signed_in (accessToken signed_in)) = NetworkError
  ∧ fst (signOut signed_in) = Ok tt
  ∧ notified (snd (signOut signed_in))
    = notified signed_in
      ++ ((λ cb, EvNotify cb None) <$> authStateCallbacks signed_in).
Proof.
  assert (H : idb_delete_fails (faults signed_in) = false) by reflexivity.
  destruct (signOut_clears_token_first_and_broadcasts signed_in)
    as (_ & _ & Hb).
  destruct (Hb H) as (Hok & Hn).
  exact (conj H (conj eq_refl (conj Hok Hn))).
Defined.

(** ** The refresh call *)

Lemma refreshToken_eq w :
  refreshToken w
  = match server w (fetched w) (refresh_request w) with
    | NetworkError => (Ok false, log (EvFetch (refresh_request w)) w)
    | Responded r =>
        if ok r
        then match granted_token (Responded r) with
             | Some t =>
                 (Ok true,
                  set_accessToken (Some t)
                    (log (EvFetch (refresh_request w)) w))
             | None => (Ok false, log (EvFetch (refresh_request w)) w)
             end
        else (Ok false, snd (signOut (log (EvFetch (refresh_request w)) w)))
    end.
Proof.
  unfold refreshToken, granted_token. run. rewrite fetch_eq.
  destruct (server w (fetched w) (refresh_request w)) as [r |]; [| done].
  destruct (ok r); simpl.
  - unfold json. destruct (json_body r) as [data |]; [| done]. run.
    destruct (j_success data); simpl; [| done].
    destruct (j_access_token data) as [t |]; simpl; [| done].
    by destruct (truthy t).
  - by destruct (signOut _) as [[[] | e] w2].
Qed.

(** ** C6 and C3: session restore *)

Lemma key_frame w w' :
  same_setup w w' → getStorageKeys_user w' = getStorageKeys_user w.
Proof. intros (HC & _). unfold getStorageKeys_user. by rewrite HC. Qed.

Lemma refresh_request_frame w w' :
  same_setup w w' → refresh_request w' = refresh_request w.
Proof. intros (HC & _). unfold refresh_request. by rewrite HC. Qed.



Lemma no_marker_no_identity w :
  localStorage w !! getStorageKeys_user w = None →
  cookieJar w !! getStorageKeys_user w = None →
  cached_identity w = None.
Proof.
  intros Hl Hc. unfold cached_identity, sync_view, ls_seen, cookie_seen.
  rewrite Hl, Hc.
  by destruct (ls_get_throws (faults w)), (cookie_get_throws (faults w)).
Qed.

(** C6.  With no token in memory and no identity marker in either
    synchronous tier, [initializeAuth()] resolves to [null] and sends
    no request: the list of requests sent is unchanged, and none of the
    interactions it adds is a [fetch]. *)
Theorem initializeAuth_fresh_browser (w : World) :
  truthy_opt (accessToken w) = false →
  localStorage w !! getStorageKeys_user w = None →
  cookieJar w !! getStorageKeys_user w = None →
  fst (initializeAuth w) = Ok None
  ∧ fetched (snd (initializeAuth w)) = fetched w
  ∧ adds (λ e, is_fetch (ev e) = false) w (snd (initializeAuth w)).
Proof.
  intros Htok Hl Hc. pose proof (no_marker_no_identity w Hl Hc) as Hid.
  destruct (initializeAuth w) as [r w'] eqn:E. simpl.
  unfold initializeAuth in E. step_pure E. rewrite Htok in E. step_pure E.
  apply bind_inv in E as [(cached & w1 & E1 & E) | (e & E1 & _)]; cycle 1.
  { apply getCurrentUserSync_spec in E1 as (Hr & _). discriminate Hr. }
  apply getCurrentUserSync_spec in E1 as (Hr & Hsu1 & Hse1 & Hst1 & Ha1).
  rewrite Hid in Hr. injection Hr as ->.
  apply bind_inv in E as [(? & w2 & E2 & E) | (e & E2 & _)]; cycle 1.
  { apply initGoogleAuth_spec in E2 as (Hr & _). discriminate Hr. }
  apply initGoogleAuth_spec in E2 as (_ & Hsu2 & Htok2 & Hst2 & Ha2).
  injection E as <- <-.
  assert (Ha : adds (λ e, is_fetch (ev e) = false) w w2).
  { eapply adds_trans.
    - eapply adds_mono; [| exact Ha1]. intros e [He _]. by destruct (ev e).
    - eapply adds_mono; [| exact Ha2]. intros e [He _]. by destruct (ev e). }
  split; [done |]. split; [| exact Ha].
  eapply adds_fetched; [exact Ha |]. auto.
Qed.

Lemma initializeAuth_fresh_browser_witness :
  truthy_opt (accessToken fresh_browser) = false
  ∧ localStorage fresh_browser !! getStorageKeys_user fresh_browser = None
  ∧ cookieJar fresh_browser !! getStorageKeys_user fresh_browser = None
  ∧ fst (initializeAuth fresh_browser) = Ok None
  ∧ fetched (snd (initializeAuth fresh_browser)) = fetched fresh_browser.
Proof.
  assert (H1 : truthy_opt (accessToken fresh_browser) = false)
    by reflexivity.
  assert (H2 : localStorage fresh_browser
               !! getStorageKeys_user fresh_browser = None)
    by reflexivity.
  assert (H3 : cookieJar fresh_browser
               !! getStorageKeys_user fresh_browser = None)
    by reflexivity.
  destruct (initializeAuth_fresh_browser fresh_browser H1 H2 H3)
    as (Hr & Hf & _).
  exact (conj H1 (conj H2 (conj H3 (conj Hr Hf)))).
Defined.





(** ** C1: the authenticated request *)

Lemma authorized_is_not_refresh url options t w :
  authorized_request url options t ≠ refresh_request w.
Proof.
  intros H.
  assert (Hh : headers (req_init (authorized_request url options t))
               !! "Authorization"
               = headers (req_init (refresh_request w)) !! "Authorization")
    by (by rewrite H).
  simpl in Hh. unfold with_authorization in Hh.
  rewrite lookup_insert_eq in Hh. by rewrite lookup_singleton_ne in Hh.
Qed.

Lemma logout_is_not_refresh w t w0 :
  logout_request w t ≠ refresh_request w0.
Proof.
  intros H.
  assert (Hh : headers (req_init (logout_request w t)) !! "Authorization"
               = headers (req_init (refresh_request w0)) !! "Authorization")
    by (by rewrite H).
  simpl in Hh. rewrite lookup_singleton_eq in Hh.
  by rewrite lookup_singleton_ne in Hh.
Qed.

Lemma one_refresh_among (a c refresh : Request) :
  a ≠ refresh → c ≠ refresh →
  length (filter (λ r, r = refresh) [a; refresh; c]) = 1.
Proof.
  intros Ha Hc. rewrite !filter_cons, filter_nil.
  repeat case_decide; simpl; congruence.
Qed.

Lemma logout_request_frame w w' t :
  same_setup w w' → logout_request w' t = logout_request w t.
Proof. intros (HC & _). unfold logout_request. by rewrite HC. Qed.

(** C1.  The caller does not always get the original 401 back.
    [authenticatedFetch] awaits [signOut()] outside any [try], and
    [signOut()] rejects when the IndexedDB delete request errors (its
    promise is returned by [deleteIndexedDB] without being awaited, so
    the [catch] there does not see it fail).  Signed in with a token
    the server answers with 401, a refresh that is refused, and a
    [store.delete] request that errors: the call rejects with the
    storage error instead of resolving with the 401 response, after
    the original request and the one refresh request; no subscriber is
    notified. *)
Lemma authenticatedFetch_rejects_with_the_storage_error :
  accessToken rejected_delete_errors = Some "t1"
  ∧ server rejected_delete_errors (fetched rejected_delete_errors)
      (authorized_request "https://api/items" get_items "t1")
    = Responded (mkResp 401 None)
  ∧ granted_token
      (server rejected_delete_errors
         (fetched rejected_delete_errors
          ++ [authorized_request "https://api/items" get_items "t1"])
         (refresh_request rejected_delete_errors)) = None
  ∧ fst (authenticatedFetch "https://api/items" get_items
           rejected_delete_errors) = Throw StorageError
  ∧ fst (authenticatedFetch "https://api/items" get_items
           rejected_delete_errors) ≠ Ok (mkResp 401 None)
  ∧ fetched (snd (authenticatedFetch "https://api/items" get_items
                    rejected_delete_errors))
    = [authorized_request "https://api/items" get_items "t1";
       refresh_request rejected_delete_errors]
  ∧ notified (snd (authenticatedFetch "https://api/items" get_items
                     rejected_delete_errors)) = [].
Proof. vm_compute. repeat split; discriminate. Qed.

(** X25.  The 401 path of [authenticatedFetch] when the IndexedDB
    delete request does not error.  [authenticatedFetch(url, options)]
    is called with a token in memory and the first response has status
    401, in a world where the IndexedDB delete request of a sign-out
    does not error.  Then exactly one of the requests it sends is the
    refresh request.  If the refresh grants a token, the original
    request is sent once more, carrying the new token, the outcome of
    that retry is the outcome of the call, and the new token is the one
    in memory.  If the refresh fails in any way, a sign-out runs to
    completion, the token in memory is [null], nothing is retried, and
    the call resolves with the original 401 response. *)
Theorem authenticatedFetch_refreshes_once (url : string)
    (options : RequestInit) (w : World) (tok : string) (r401 : Response) :
  accessToken w = Some tok → tok ≠ EmptyString →
  server w (fetched w) (authorized_request url options tok)
    = Responded r401 →
  status r401 = 401 →
  idb_delete_fails (faults w) = false →
  let req1 := authorized_request url options tok in
  let refresh := refresh_request w in
  let reply := server w (fetched w ++ [req1]) refresh in
  let out := fst (authenticatedFetch url options w) in
  let w' := snd (authenticatedFetch url options w) in
  (∃ sent, fetched w' = fetched w ++ sent
           ∧ length (filter (λ r, r = refresh) sent) = 1)
  ∧ (∀ t, granted_token reply = Some t →
       fetched w' = fetched w
                    ++ [req1; refresh; authorized_request url options t]
       ∧ out = match server w (fetched w ++ [req1; refresh])
                       (authorized_request url options t) with
               | Responded r2 => Ok r2
               | NetworkError => Throw FetchFailed
               end
       ∧ accessToken w' = Some t)
  ∧ (granted_token reply = None →
     out = Ok r401
     ∧ accessToken w' = None
     ∧ fetched w' = fetched w ++ [req1; refresh; logout_request w (Some tok)]
     ∧ ∃ w2, signOut w2 = (Ok tt, w')).
Proof.
  intros Htok Hne Hfirst H401 Hidb req1 refresh reply out w'.
  apply truthy_true in Hne.
  destruct (authenticatedFetch url options w) as [o wf] eqn:E.
  subst out w'. simpl.
  unfold authenticatedFetch, getAccessToken in E. step_pure E.
  rewrite Htok in E. simpl in E. rewrite Hne in E.
  fold (authorized_request url options tok) in E.
  subst req1 refresh reply.
  set (req1 := authorized_request url options tok) in *.
  set (refresh := refresh_request w) in *.
  apply bind_inv in E as [(resp & w1 & E1 & E) | (e & E1 & _)]; cycle 1.
  { rewrite fetch_eq in E1. rewrite Hfirst in E1. discriminate E1. }
  rewrite fetch_eq, Hfirst in E1. injection E1 as <- <-.
  rewrite H401 in E. simpl in E.
  destruct (log_frame (EvFetch req1) w) as (Lsu1 & Lse1 & Lst1 & Lt1).
  set (w1 := log (EvFetch req1) w) in *.
  assert (Hfe1 : fetched w1 = fetched w ++ [req1]) by apply fetched_log.
  assert (Hsv1 : server w1 = server w) by apply Lsu1.
  pose proof (refresh_request_frame _ _ Lsu1) as Hrq1. fold refresh in Hrq1.
  assert (Htok1 : accessToken w1 = Some tok) by (destruct Lse1 as [-> _]; done).
  destruct (log_frame (EvFetch refresh) w1) as (Lsu2 & Lse2 & Lst2 & Lt2).
  set (w2 := log (EvFetch refresh) w1) in *.
  assert (Hfe2 : fetched w2 = fetched w ++ [req1; refresh]).
  { unfold w2. rewrite fetched_log, Hfe1, <- app_assoc. done. }
  assert (Hsu02 : same_setup w w2) by (eapply same_setup_trans; eauto).
  assert (Htok2 : accessToken w2 = Some tok) by (destruct Lse2 as [-> _]; done).
  assert (Hidb2 : idb_delete_fails (faults w2) = false).
  { destruct Hsu02 as (_ & _ & -> & _). done. }
  apply bind_inv in E as [(refreshed & w3 & E3 & E) | (e & E3 & _)]; cycle 1.
  { rewrite refreshToken_eq in E3.
    destruct (server w1 (fetched w1) (refresh_request w1)) as [r |];
      [| discriminate E3].
    destruct (ok r); [| discriminate E3].
    destruct (granted_token (Responded r)); discriminate E3. }
  rewrite refreshToken_eq, Hsv1, Hfe1, Hrq1 in E3. fold w2 in E3.
  set (reply := server w (fetched w ++ [req1]) refresh) in *.
  (* what a completed sign-out from [w2]-like states gives *)
  assert (Hout : ∀ wa wb ro,
            same_setup w wa → accessToken wa = None ∨ accessToken wa = Some tok →
            signOut wa = (ro, wb) →
            ro = Ok tt ∧ accessToken wb = None ∧ same_setup w wb
            ∧ fetched wb
              = fetched wa ++ (if truthy_opt (accessToken wa)
                               then [logout_request w (Some tok)] else [])).
  { intros wa wb ro Hsa Hta Es.
    apply signOut_spec in Es as (Hsb & Htb & _ & Hok & _).
    assert (Hfa : idb_delete_fails (faults wa) = false).
    { destruct Hsa as (_ & _ & -> & _). done. }
    destruct (Hok Hfa) as (-> & Hfb & _).
    split; [done |]. split; [done |].
    split; [eapply same_setup_trans; eauto |].
    rewrite Hfb. f_equal.
    destruct Hta as [-> | ->]; simpl; [done |].
    rewrite Hne. by rewrite (logout_request_frame _ _ _ Hsa). }
  assert (Hfail : ∀ wa,
            same_setup w wa →
            (accessToken wa = Some tok
             ∧ fetched wa = fetched w ++ [req1; refresh])
            ∨ (accessToken wa = None
               ∧ fetched wa
                 = fetched w ++ [req1; refresh; logout_request w (Some tok)]) →
            bind signOut (λ _, ret r401) wa = (o, wf) →
            o = Ok r401 ∧ accessToken wf = None
            ∧ fetched wf
              = fetched w ++ [req1; refresh; logout_request w (Some tok)]
            ∧ ∃ w2, signOut w2 = (Ok tt, wf)).
  { intros wa Hsa Hcase Eb.
    apply bind_inv in Eb as [(? & wb & Es & Eb) | (e & Es & _)]; cycle 1.
    { eapply Hout in Es as (Hr & _); [discriminate Hr | exact Hsa |].
      destruct Hcase as [[-> _] | [-> _]]; auto. }
    injection Eb as <- <-. pose proof Es as Es'.
    eapply Hout in Es as (_ & Htb & _ & Hfb); [| exact Hsa |]; cycle 1.
    { destruct Hcase as [[-> _] | [-> _]]; auto. }
    split; [done |]. split; [done |]. split.
    - rewrite Hfb.
      destruct Hcase as [[-> ->] | [-> ->]]; simpl.
      + by rewrite Hne, <- app_assoc.
      + by rewrite app_nil_r.
    - exists wa. by destruct x. }
  assert (Hsent : ∀ c, c ≠ refresh →
            fetched wf = fetched w ++ [req1; refresh; c] →
            ∃ sent, fetched wf = fetched w ++ sent
                    ∧ length (filter (λ r, r = refresh) sent) = 1).
  { intros c Hc Hf. eexists. split; [exact Hf |].
    apply one_refresh_among; [apply authorized_is_not_refresh | exact Hc]. }
  destruct reply as [r |] eqn:Hreply.
  - destruct (ok r) eqn:Hok.
    + destruct (granted_token (Responded r)) as [t |] eqn:Hg.
      * (* the refresh granted [t]: one retry *)
        injection E3 as <- <-.
        destruct (set_accessToken_frame (Some t) w2)
          as (Ssu & Sst & Sgl & St & Stok).
        set (w3 := set_accessToken (Some t) w2) in *.
        step_pure E. rewrite Stok in E. rewrite fetch_eq in E.
        assert (Hreq : {| req_url := url;
                          req_init :=
                            {| method := method options;
                               headers :=
                                 with_authorization (Some t)
                                   (with_authorization (Some tok)
                                      (headers options));
                               body := body options |} |}
                       = authorized_request url options t).
        { unfold authorized_request, with_authorization. simpl.
          by rewrite insert_insert_eq. }
        rewrite Hreq in E. injection E as <- <-.
        assert (Hsv3 : server w3 = server w).
        { destruct Ssu as (_ & _ & _ & _ & _ & _ & ->). apply Hsu02. }
        assert (Hfe3 : fetched w3 = fetched w ++ [req1; refresh]).
        { by rewrite (fetched_same_trace w2 w3 St). }
        assert (Hfin : fetched (log (EvFetch (authorized_request url options t)) w3)
                       = fetched w
                         ++ [req1; refresh; authorized_request url options t]).
        { rewrite fetched_log, Hfe3, <- app_assoc. done. }
        split; [apply (Hsent _ (authorized_is_not_refresh _ _ _ _) Hfin) |].
        split.
        -- intros t' [= <-]. split; [exact Hfin |].
           split; [by rewrite Hsv3, Hfe3 |].
           destruct (log_frame (EvFetch (authorized_request url options t)) w3)
             as (_ & [-> _] & _). exact Stok.
        -- intros Hnone. discriminate Hnone.
      * (* a 2xx reply that grants nothing *)
        injection E3 as <- <-.
        destruct (Hfail w2 Hsu02 (or_introl (conj Htok2 Hfe2)) E)
          as (Ho & Ht & Hf & Hs).
        split; [apply (Hsent _ (logout_is_not_refresh _ _ _) Hf) |].
        split; [intros t' Ht'; discriminate Ht' | by intros _].
    + (* a non-2xx reply: [refreshToken] has signed out already *)
      injection E3 as <- <-.
      assert (Hg : granted_token (Responded r) = None)
        by (unfold granted_token; by rewrite Hok).
      destruct (signOut w2) as [rs ws] eqn:Es. simpl in E.
      eapply Hout in Es as (_ & Hts & Hss & Hfs); [| exact Hsu02 | auto].
      rewrite Htok2 in Hfs. simpl in Hfs. rewrite Hne, Hfe2 in Hfs.
      rewrite <- app_assoc in Hfs. simpl in Hfs.
      destruct (Hfail ws Hss (or_intror (conj Hts Hfs)) E)
        as (Ho & Ht & Hf & Hs).
      split; [apply (Hsent _ (logout_is_not_refresh _ _ _) Hf) |].
      split; [intros t' Ht'; rewrite Hg in Ht'; discriminate Ht' | by intros _].
  - (* the refresh request failed on the network *)
    injection E3 as <- <-.
    destruct (Hfail w2 Hsu02 (or_introl (conj Htok2 Hfe2)) E)
      as (Ho & Ht & Hf & Hs).
    split; [apply (Hsent _ (logout_is_not_refresh _ _ _) Hf) |].
    split; [intros t' Ht'; discriminate Ht' | by intros _].
Qed.

Lemma authenticatedFetch_refreshes_once_witness :
  accessToken token_expired = Some "t1" ∧ "t1" ≠ EmptyString
  ∧ server token_expired (fetched token_expired)
      (authorized_request "https://api/items" get_items "t1")
    = Responded (mkResp 401 None)
  ∧ status (mkResp 401 None) = 401
  ∧ idb_delete_fails (faults token_expired) = false
  ∧ (∃ sent,
       fetched (snd (authenticatedFetch "https://api/items" get_items
                       token_expired))
       = fetched token_expired ++ sent
       ∧ length (filter (λ r, r = refresh_request token_expired) sent) = 1)
  ∧ fst (authenticatedFetch "https://api/items" get_items token_expired)
    = Ok (mkResp 200 None)
  ∧ accessToken
      (snd (authenticatedFetch "https://api/items" get_items token_expired))
    = Some "t2".
Proof.
  assert (H1 : accessToken token_expired = Some "t1") by reflexivity.
  assert (H2 : "t1" ≠ EmptyString) by discriminate.
  assert (H3 : server token_expired (fetched token_expired)
                 (authorized_request "https://api/items" get_items "t1")
               = Responded (mkResp 401 None)) by (vm_compute; reflexivity).
  assert (H4 : status (mkResp 401 None) = 401) by reflexivity.
  assert (H5 : idb_delete_fails (faults token_expired) = false)
    by reflexivity.
  destruct (authenticatedFetch_refreshes_once "https://api/items" get_items
              token_expired "t1" (mkResp 401 None) H1 H2 H3 H4 H5)
    as (Hone & Hgrant & _).
  assert (Hg : granted_token
                 (server token_expired
                    (fetched token_expired
                     ++ [authorized_request "https://api/items" get_items
                           "t1"])
                    (refresh_request token_expired)) = Some "t2")
    by (vm_compute; reflexivity).
  destruct (Hgrant "t2" Hg) as (_ & Hout & Htok).
  refine (conj H1 (conj H2 (conj H3 (conj H4 (conj H5
            (conj Hone (conj _ Htok))))))).
  rewrite Hout. vm_compute. reflexivity.
Defined.

(** ** C8: subscribers *)

Lemma filter_other_twice (callback : Callback) (l : list Callback) :
  filter (λ cb, cb ≠ callback) (filter (λ cb, cb ≠ callback) l)
  = filter (λ cb, cb ≠ callback) l.
Proof.
  induction l as [| x l IH]; [done |].
  rewrite filter_cons. case_decide as Hx; [| exact IH].
  rewrite filter_cons, decide_True; [| exact Hx]. by rewrite IH.
Qed.

Lemma filter_other_absent (callback : Callback) (l : list Callback) :
  callback ∉ l → filter (λ cb, cb ≠ callback) l = l.
Proof.
  induction l as [| x l IH]; [done |].
  intros Hnot. apply not_elem_of_cons in Hnot as [Hx Hl].
  rewrite filter_cons, decide_True; [| congruence].
  by rewrite IH.
Qed.

Lemma unsubscribe_twice callback w :
  snd (unsubscribe callback (snd (unsubscribe callback w)))
  = snd (unsubscribe callback w).
Proof.
  destruct w as [c t cbs db ls ck idb pd f gl ga jp js sv tr].
  unfold unsubscribe. run. simpl. by rewrite filter_other_twice.
Qed.

Lemma subscribe_all_callbacks cbs w :
  authStateCallbacks (subscribe_all cbs w) = authStateCallbacks w ++ cbs.
Proof.
  revert w. induction cbs as [| cb cbs IH]; intros w; simpl.
  - by rewrite app_nil_r.
  - unfold subscribe_all in *. simpl. rewrite IH.
    destruct w. unfold onAuthStateChange. run. simpl.
    by rewrite <- app_assoc.
Qed.

(** C8.  [onAuthStateChange(callback)] appends the callback to the
    subscriber list and returns its unsubscribe function; subscribers
    therefore stand in the list in the order in which they subscribed.
    Calling the unsubscribe function again, once or any number of
    times, leaves the world as the first call left it, and calling it
    when the callback is not subscribed changes nothing.  A
    notification invokes the subscribers of the moment one after the
    other in list order, within the call: the trace grows by exactly
    these invocations and nothing is left in flight. *)
Theorem unsubscribe_idempotent_notify_in_order (callback : Callback)
    (u : option GoogleUser) (cbs : list Callback) (n : nat) (w : World) :
  fst (onAuthStateChange callback w) = Ok (unsubscribe callback)
  ∧ authStateCallbacks (snd (onAuthStateChange callback w))
    = authStateCallbacks w ++ [callback]
  ∧ authStateCallbacks (subscribe_all cbs w) = authStateCallbacks w ++ cbs
  ∧ snd (unsubscribe callback (snd (unsubscribe callback w)))
    = snd (unsubscribe callback w)
  ∧ Nat.iter (S n) (λ w', snd (unsubscribe callback w')) w
    = snd (unsubscribe callback w)
  ∧ (callback ∉ authStateCallbacks w → snd (unsubscribe callback w) = w)
  ∧ fst (notifyAuthStateChange u w) = Ok tt
  ∧ trace (snd (notifyAuthStateChange u w))
    = trace w
      ++ ((λ cb, mkEntry (EvNotify cb u) (accessToken w))
            <$> authStateCallbacks w)
  ∧ pending (snd (notifyAuthStateChange u w)) = pending w
  ∧ authStateCallbacks (snd (notifyAuthStateChange u w))
    = authStateCallbacks w.
Proof.
  split; [by destruct w |].
  split; [by destruct w |].
  split; [apply subscribe_all_callbacks |].
  split; [apply unsubscribe_twice |].
  split.
  { induction n as [| n IH]; [done |].
    change (Nat.iter (S (S n)) (λ w', snd (unsubscribe callback w')) w)
      with (snd (unsubscribe callback
                   (Nat.iter (S n) (λ w', snd (unsubscribe callback w')) w))).
    rewrite IH. apply unsubscribe_twice. }
  split.
  { intros Hnot. destruct w as [c t l db ls ck idb pd f gl ga jp js sv tr].
    unfold unsubscribe. run. simpl in *. by rewrite filter_other_absent. }
  destruct (notifyAuthStateChange u w) as [r w'] eqn:E. simpl.
  apply notifyAuthStateChange_spec in E as (-> & Hsu & _ & Hst & Ht).
  split; [done |]. split; [exact Ht |].
  split; [apply Hst | apply Hsu].
Qed.

Lemma unsubscribe_idempotent_notify_in_order_witness :
  (2 ∉ authStateCallbacks (snd (unsubscribe 2 signed_in)))
  ∧ snd (unsubscribe 2 (snd (unsubscribe 2 signed_in)))
    = snd (unsubscribe 2 signed_in)
  ∧ events (snd (notifyAuthStateChange None signed_in))
    = [EvNotify 1 None; EvNotify 2 None].
Proof.
  assert (H : 2 ∉ authStateCallbacks (snd (unsubscribe 2 signed_in))).
  { vm_compute. intros H. apply list_elem_of_In in H.
    destruct H as [H | []]. discriminate H. }
  destruct (unsubscribe_idempotent_notify_in_order 2 None [] 0
              (snd (unsubscribe 2 signed_in)))
    as (_ & _ & _ & _ & _ & Hagain & _).
  destruct (unsubscribe_idempotent_notify_in_order 2 None [] 0 signed_in)
    as (_ & _ & _ & _ & _ & _ & _ & Ht & _).
  split; [exact H |]. split; [exact (Hagain H) |].
  unfold events. rewrite Ht. reflexivity.
Defined.

(** ** C10: the storage prefix *)

Lemma configure_all_prefix configs w :
  cfg_storagePrefix (CONFIG (configure_all configs w))
  = default (cfg_storagePrefix (CONFIG w))
      (last (omap supplied_prefix configs)).
Proof.
  revert w. induction configs as [| config configs IH]; intros w; [done |].
  unfold configure_all in *. simpl. rewrite IH. clear IH.
  assert (Hc : cfg_storagePrefix
                 (CONFIG (snd (configureGoogleAuth config w)))
               = default (cfg_storagePrefix (CONFIG w))
                   (supplied_prefix config)).
  { destruct w as [c t cbs db ls ck idb pd f gl ga jp js sv tr].
    unfold configureGoogleAuth, supplied_prefix. run. simpl.
    destruct (storagePrefix config) as [p |]; [destruct (truthy p) |]; done. }
  simpl in Hc. rewrite Hc.
  destruct (supplied_prefix config) as [p |]; simpl; [| done].
  rewrite last_cons. by destruct (last _).
Qed.

(** C10.  After any sequence of [configureGoogleAuth] calls the prefix
    in [CONFIG] is the one supplied by the most recent call whose
    [storagePrefix] passes the test [if (config.storagePrefix)] -- a
    non-empty string -- and the prefix held before the sequence when no
    call supplied one: ["auth"] for the module as loaded.  A call that
    omits [storagePrefix] keeps the prefix, and with it both derived
    keys. *)
Theorem storagePrefix_is_last_supplied (configs : list GoogleAuthConfig)
    (config : GoogleAuthConfig) (w : World) :
  cfg_storagePrefix (CONFIG (configure_all configs w))
  = default (cfg_storagePrefix (CONFIG w))
      (last (omap supplied_prefix configs))
  ∧ (CONFIG w = CONFIG_initial →
     cfg_storagePrefix (CONFIG (configure_all configs w))
     = default "auth" (last (omap supplied_prefix configs)))
  ∧ getStorageKeys_user (configure_all configs w)
    = default (cfg_storagePrefix (CONFIG w))
        (last (omap supplied_prefix configs)) +:+ "_user"
  ∧ getStorageKeys_avatarCache (configure_all configs w)
    = default (cfg_storagePrefix (CONFIG w))
        (last (omap supplied_prefix configs)) +:+ "_avatar_cache"
  ∧ (storagePrefix config = None →
     cfg_storagePrefix (CONFIG (snd (configureGoogleAuth config w)))
     = cfg_storagePrefix (CONFIG w)
     ∧ getStorageKeys_user (snd (configureGoogleAuth config w))
       = getStorageKeys_user w
     ∧ getStorageKeys_avatarCache (snd (configureGoogleAuth config w))
       = getStorageKeys_avatarCache w).
Proof.
  pose proof (configure_all_prefix configs w) as Hp.
  split; [exact Hp |].
  split; [intros Hinit; rewrite Hp, Hinit; reflexivity |].
  unfold getStorageKeys_user, getStorageKeys_avatarCache. rewrite Hp.
  split; [done |]. split; [done |].
  intros Hnone. destruct w as [c t cbs db ls ck idb pd f gl ga jp js sv tr].
  unfold configureGoogleAuth. run. simpl. by rewrite Hnone.
Qed.

Lemma storagePrefix_is_last_supplied_witness :
  CONFIG blank = CONFIG_initial
  ∧ storagePrefix (mkConfig "id2" "https://api2" None) = None
  ∧ getStorageKeys_user
      (configure_all
         [mkConfig "id" "https://api" (Some "myapp");
          mkConfig "id2" "https://api2" None] blank)
    = "myapp_user"
  ∧ getStorageKeys_avatarCache
      (snd (configureGoogleAuth (mkConfig "id2" "https://api2" None)
              (configure_all [mkConfig "id" "https://api" (Some "myapp")]
                 blank)))
    = "myapp_avatar_cache".
Proof.
  assert (H1 : CONFIG blank = CONFIG_initial) by reflexivity.
  assert (H2 : storagePrefix (mkConfig "id2" "https://api2" None) = None)
    by reflexivity.
  destruct (storagePrefix_is_last_supplied
              [mkConfig "id" "https://api" (Some "myapp");
               mkConfig "id2" "https://api2" None]
              (mkConfig "id2" "https://api2" None) blank)
    as (_ & _ & Hu & _).
  destruct (storagePrefix_is_last_supplied
              [mkConfig "id" "https://api" (Some "myapp")]
              (mkConfig "id2" "https://api2" None)
              (configure_all [mkConfig "id" "https://api" (Some "myapp")]
                 blank))
    as (_ & _ & _ & _ & Hkeep).
  destruct (Hkeep H2) as (_ & _ & Ha).
  refine (conj H1 (conj H2 (conj _ _))).
  - rewrite Hu. reflexivity.
  - rewrite Ha. reflexivity.
Defined.

(** * More of the storage service *)

Ltac crunch := repeat (case_match; simpl in *; simplify_eq); simpl in *.

(** ** Keys do not interfere *)

Lemma settle_puts_holds_under k a b c l w :
  Forall (λ p, fst p ≠ k) l →
  localStorage w !! k = a ∧ cookieJar w !! k = b ∧ idbStore w !! k = c →
  localStorage (settle_puts l w) !! k = a
  ∧ cookieJar (settle_puts l w) !! k = b
  ∧ idbStore (settle_puts l w) !! k = c
  ∧ pending (settle_puts l w) = pending w.
Proof.
  intros Hl. revert w. induction Hl as [| [k0 v0] l Hk _ IH]; intros w H.
  - simpl. by destruct H as (? & ? & ?).
  - simpl in *. destruct w as [cf t cbs db ls ck idb pd f gl ga jp js sv tr].
    unfold idb_put. run. simpl in *. destruct H as (H1 & H2 & H3).
    destruct (idb_put_fails f); simpl;
      match goal with
      | |- context [settle_puts l ?W] =>
          destruct (IH W) as (? & ? & ? & ?); [| done]
      end; simpl; rewrite ?lookup_insert_ne by done; done.
Qed.

Lemma run_call_holds_under k a b c call w :
  call_key call ≠ Some k →
  holds_under k a b c w → holds_under k a b c (run_call call w).
Proof.
  intros Hk (H1 & H2 & H3 & H4). unfold holds_under.
  destruct call as [k0 value | k0 | k0 | k0 | | f0]; simpl in Hk;
    try assert (k0 ≠ k) by congruence.
  1-4: destruct w as [cf t cbs db ls ck idb pd f gl ga jp js sv tr];
    simpl in *; storage_unfold; run; simpl; crunch;
    rewrite ?lookup_insert_ne, ?lookup_delete_ne by done;
    repeat split; try done;
    try (apply Forall_app; (split; [done | by constructor])).
  - unfold settle.
    destruct (settle_puts_holds_under k a b c (pending w) (set_pending [] w) H4)
      as (? & ? & ? & Hp).
    { by destruct w. }
    repeat split; try done. unfold run_call, settle. rewrite Hp.
    destruct w; simpl. constructor.
  - by destruct w.
Qed.

Lemma run_calls_holds_under k a b c calls w :
  Forall (λ call, call_key call ≠ Some k) calls →
  holds_under k a b c w → holds_under k a b c (run_calls calls w).
Proof.
  intros Hc. revert w. induction Hc as [| call calls Hk _ IH]; intros w H.
  - done.
  - simpl. apply IH. by apply run_call_holds_under.
Qed.

(** X1.  Keys do not interfere.  Over any sequence of storage calls
    ([multiSet], [multiGet], [multiGetSync], [multiRemove]), with the
    event loop going idle and the engines starting or ceasing to fail
    at any point in between, a key that none of the calls names keeps
    the value it has in each of the three tiers -- provided no write to
    it is in flight at the start. *)
Theorem storage_calls_leave_other_keys (calls : list StorageCall)
    (k : string) (w : World) :
  Forall (λ call, call_key call ≠ Some k) calls →
  Forall (λ p, fst p ≠ k) (pending w) →
  localStorage (run_calls calls w) !! k = localStorage w !! k
  ∧ cookieJar (run_calls calls w) !! k = cookieJar w !! k
  ∧ idbStore (run_calls calls w) !! k = idbStore w !! k.
Proof.
  intros Hc Hp.
  destruct (run_calls_holds_under k (localStorage w !! k) (cookieJar w !! k)
              (idbStore w !! k) calls w Hc) as (? & ? & ? & _); [| done].
  by repeat split.
Qed.

Lemma storage_calls_leave_other_keys_witness :
  let calls := [CallSet "a" (JString "1"); CallGet "a"; CallSettle;
                EnvFaults (faults ls_down); CallRemove "a";
                CallGetSync "c"] in
  let w := set_localStorage {[ "b" := "2" ]} blank in
  Forall (λ call, call_key call ≠ Some "b") calls
  ∧ Forall (λ p, fst p ≠ "b") (pending w)
  ∧ localStorage (run_calls calls w) !! "b" = localStorage w !! "b"
  ∧ cookieJar (run_calls calls w) !! "b" = cookieJar w !! "b"
  ∧ idbStore (run_calls calls w) !! "b" = idbStore w !! "b".
Proof.
  intros calls w.
  assert (H1 : Forall (λ call, call_key call ≠ Some "b") calls)
    by (repeat constructor; discriminate).
  assert (H2 : Forall (λ p, fst p ≠ "b") (pending w)) by constructor.
  exact (conj H1 (conj H2 (storage_calls_leave_other_keys calls "b" w H1 H2))).
Defined.

(** ** Removal *)

(** X2.  Remove, then read.  When removal goes through in every tier,
    [multiRemove(k)] completes, no tier holds [k] any more, and
    [multiGetSync(k)] and [multiGet(k)] both return [null]; that
    [multiGet] repairs nothing. *)
Theorem multiRemove_then_reads_find_nothing (k : string) (w : World) :
  removal_healthy w → idb_get_fails (faults w) = false →
  fst (multiRemove k w) = Ok tt
  ∧ localStorage (snd (multiRemove k w)) !! k = None
  ∧ cookieJar (snd (multiRemove k w)) !! k = None
  ∧ idbStore (snd (multiRemove k w)) !! k = None
  ∧ fst (multiGetSync k (snd (multiRemove k w))) = Ok None
  ∧ fst (multiGet k (snd (multiRemove k w))) = Ok None
  ∧ same_stores (snd (multiRemove k w))
      (snd (multiGet k (snd (multiRemove k w)))).
Proof.
  destruct w as [c t cbs db ls ck idb pd f gl ga jp js sv tr].
  destruct f as [f1 f2 f3 f4 f5 f6 f7 f8 f9 f10].
  unfold removal_healthy, idb_fails, same_stores. simpl.
  intros (-> & -> & -> & Hdb) ->.
  destruct db as [[|]|]; simpl in Hdb; simplify_eq.
  all: storage_unfold; run; simpl.
  all: destruct f1, f4.
  all: repeat (progress (simpl; rewrite ?lookup_delete_eq)).
  all: repeat split; reflexivity.
Qed.

Lemma multiRemove_then_reads_find_nothing_witness :
  removal_healthy signed_in ∧ idb_get_fails (faults signed_in) = false
  ∧ localStorage signed_in !! "auth_user" = Some "ada"
  ∧ fst (multiGet "auth_user" (snd (multiRemove "auth_user" signed_in)))
    = Ok None.
Proof.
  assert (H1 : removal_healthy signed_in) by (repeat split).
  assert (H2 : idb_get_fails (faults signed_in) = false) by reflexivity.
  destruct (multiRemove_then_reads_find_nothing "auth_user" signed_in H1 H2)
    as (_ & _ & _ & _ & _ & Hget & _).
  exact (conj H1 (conj H2 (conj eq_refl Hget))).
Defined.

(** ** The order of the writes *)

(** X3.  [multiSet] writes localStorage and the cookie before it turns
    to IndexedDB.  So whatever IndexedDB does -- also when the put
    request errors and [multiSet] rejects -- a stored non-empty [v] is
    in each synchronous tier that took the write, and [multiGetSync]
    returns it when localStorage works, or when localStorage cannot be
    read and the cookie jar works. *)
Theorem multiSet_writes_sync_tiers_first (k v : string) (w : World) :
  v ≠ EmptyString →
  (ls_set_throws (faults w) = false →
   localStorage (snd (multiSet k (JString v) w)) !! k = Some v)
  ∧ (cookie_set_fails (faults w) = false →
     cookieJar (snd (multiSet k (JString v) w)) !! k = Some v)
  ∧ (ls_set_throws (faults w) = false → ls_get_throws (faults w) = false →
     fst (multiGetSync k (snd (multiSet k (JString v) w))) = Ok (Some v))
  ∧ (ls_get_throws (faults w) = true → cookie_set_fails (faults w) = false →
     cookie_get_throws (faults w) = false →
     fst (multiGetSync k (snd (multiSet k (JString v) w))) = Ok (Some v))
  ∧ (idb_fails w = false → idb_put_fails (faults w) = true →
     fst (multiSet k (JString v) w) = Throw StorageError).
Proof.
  intros Hv%truthy_true.
  destruct w as [c t cbs db ls ck idb pd f gl ga jp js sv tr].
  destruct f as [f1 f2 f3 f4 f5 f6 f7 f8 f9 f10]. unfold idb_fails. simpl.
  repeat split.
  - intros ->. storage_unfold; simpl.
    destruct f5, db as [[|]|], f7, f8; simpl; by rewrite lookup_insert_eq.
  - intros ->. storage_unfold; simpl.
    destruct f2, db as [[|]|], f7, f8; simpl; by rewrite lookup_insert_eq.
  - intros -> ->. storage_unfold; simpl.
    destruct f5, db as [[|]|], f7, f8; simpl;
      by rewrite lookup_insert_eq; simpl; rewrite Hv.
  - intros -> -> ->. storage_unfold; simpl.
    destruct f2, db as [[|]|], f7, f8; simpl; by rewrite lookup_insert_eq.
  - intros Hdb ->. storage_unfold; simpl.
    destruct f2, f5, db as [[|]|], f7; simpl in *; by simplify_eq.
Qed.

Lemma multiSet_writes_sync_tiers_first_witness :
  "ada" ≠ EmptyString
  ∧ fst (multiSet "k" (JString "ada") put_errors) = Throw StorageError
  ∧ fst (multiGetSync "k" (snd (multiSet "k" (JString "ada") put_errors)))
    = Ok (Some "ada").
Proof.
  assert (Hv : "ada" ≠ EmptyString) by discriminate.
  destruct (multiSet_writes_sync_tiers_first "k" "ada" put_errors Hv)
    as (_ & _ & Hsync & _ & Hthrow).
  exact (conj Hv (conj (Hthrow eq_refl eq_refl) (Hsync eq_refl eq_refl))).
Defined.

(** ** The database promise *)

Lemma opens_log e w : opens (log e w) = (opens w + Nat.b2n (is_open e))%nat.
Proof.
  destruct w. unfold opens, events. simpl.
  rewrite fmap_app, filter_app, length_app. simpl.
  destruct e; simpl; reflexivity.
Qed.

Lemma idb_traffic_log e w :
  idb_traffic (log e w) = (idb_traffic w + Nat.b2n (is_idb_event e))%nat.
Proof.
  destruct w. unfold idb_traffic, events. simpl.
  rewrite fmap_app, filter_app, length_app. simpl.
  destruct e; simpl; reflexivity.
Qed.

Lemma settle_puts_opened l w :
  opened_with_promise w → opened_with_promise (settle_puts l w).
Proof.
  revert w. induction l as [| [k v] l IH]; intros w H; [done |].
  simpl. apply IH. revert H. unfold opened_with_promise.
  destruct w as [c t cbs db ls ck idb pd f gl ga jp js sv tr].
  unfold idb_put, opens, events. run. simpl.
  destruct (idb_put_fails f); simpl.
  all: rewrite fmap_app, filter_app, length_app; simpl; lia.
Qed.

Lemma run_call_opened call w :
  opened_with_promise w → opened_with_promise (run_call call w).
Proof.
  destruct call as [k0 value | k0 | k0 | k0 | | f0].
  1-4: unfold opened_with_promise, opens, events;
    destruct w as [cf t cbs db ls ck idb pd f gl ga jp js sv tr];
    simpl; intros H; storage_unfold; run; simpl; crunch;
    rewrite ?fmap_app, ?filter_app, ?length_app; simpl; lia.
  - intros H. unfold run_call, settle. apply settle_puts_opened.
    by destruct w.
  - by destruct w.
Qed.

(** X4.  [getDB] caches its promise.  On a page that has not touched
    IndexedDB yet, whatever storage calls follow and however the
    engines' failures come and go in between, [indexedDB.open] is
    called at most once: exactly once as soon as a promise is cached,
    and never again after that. *)
Theorem indexedDB_is_opened_at_most_once (calls : list StorageCall)
    (w : World) :
  dbPromise w = None → opens w = 0%nat →
  (opens (run_calls calls w) ≤ 1)%nat
  ∧ (opens (run_calls calls w) = 1%nat ↔ dbPromise (run_calls calls w) ≠ None).
Proof.
  intros Hdb Hn.
  assert (H : opened_with_promise (run_calls calls w)).
  { assert (H0 : opened_with_promise w)
      by (unfold opened_with_promise; by rewrite Hdb).
    clear Hdb Hn. revert w H0.
    induction calls as [| call calls IH]; intros w H0; [done |].
    simpl. apply IH. by apply run_call_opened. }
  unfold opened_with_promise in H. rewrite H.
  destruct (dbPromise (run_calls calls w)); split; try lia; split; done.
Qed.

Lemma indexedDB_is_opened_at_most_once_witness :
  let calls := [CallGet "a"; CallSet "a" (JString "1"); CallRemove "a";
                CallGet "b"; CallSettle] in
  dbPromise blank = None ∧ opens blank = 0%nat
  ∧ opens (run_calls calls blank) = 1%nat.
Proof.
  intros calls.
  assert (H1 : dbPromise blank = None) by reflexivity.
  assert (H2 : opens blank = 0%nat) by reflexivity.
  destruct (indexedDB_is_opened_at_most_once calls blank H1 H2) as (_ & H).
  assert (H3 : dbPromise (run_calls calls blank) ≠ None)
    by (vm_compute; discriminate).
  exact (conj H1 (conj H2 (proj2 H H3))).
Defined.

Lemma run_call_idb_disabled s n call w :
  idb_disabled s n w → idb_disabled s n (run_call call w).
Proof.
  destruct call as [k0 value | k0 | k0 | k0 | | f0].
  1-4: unfold idb_disabled, idb_traffic, events;
    destruct w as [cf t cbs db ls ck idb pd f gl ga jp js sv tr];
    simpl; intros (-> & -> & -> & <-); storage_unfold; run; simpl; crunch;
    rewrite ?fmap_app, ?filter_app, ?length_app; simpl;
    (repeat split; try done; lia).
  - destruct w as [cf t cbs db ls ck idb pd f gl ga jp js sv tr].
    unfold idb_disabled. simpl. intros (-> & -> & -> & <-). done.
  - by destruct w.
Qed.

Lemma run_calls_idb_disabled s n calls w :
  idb_disabled s n w → idb_disabled s n (run_calls calls w).
Proof.
  revert w. induction calls as [| call calls IH]; intros w H; [done |].
  simpl. apply IH. by apply run_call_idb_disabled.
Qed.

Lemma multiGet_without_database k w :
  dbPromise w = Some false →
  fst (multiGetSync k w) = Ok (sync_view w k)
  ∧ fst (multiGet k w)
    = Ok (if truthy_opt (sync_view w k) then sync_view w k else None).
Proof.
  destruct w as [cf t cbs db ls ck idb pd f gl ga jp js sv tr].
  unfold sync_view, ls_seen, cookie_seen.
  simpl. intros ->. storage_unfold; run; simpl. crunch; done.
Qed.

Lemma writes_without_database k value w :
  dbPromise w = Some false →
  fst (multiSet k value w) = Ok tt ∧ fst (multiRemove k w) = Ok tt.
Proof.
  destruct w as [cf t cbs db ls ck idb pd f gl ga jp js sv tr].
  simpl. intros ->. storage_unfold; run; simpl. crunch; done.
Qed.

(** X5.  A failed open is final.  Once the cached database promise is
    rejected, IndexedDB is out of use for the rest of the page's life,
    also when the database could be opened again: over any further
    storage calls the promise stays rejected, the store is not changed
    and not a single IndexedDB interaction is made; [multiGet] returns
    what [multiGetSync] returns when that is a non-empty string and
    [null] otherwise, and [multiSet] and [multiRemove] complete. *)
Theorem failed_open_is_final (calls : list StorageCall) (k : string)
    (value : JsValue) (w : World) :
  dbPromise w = Some false → pending w = [] →
  dbPromise (run_calls calls w) = Some false
  ∧ idbStore (run_calls calls w) = idbStore w
  ∧ idb_traffic (run_calls calls w) = idb_traffic w
  ∧ fst (multiGetSync k (run_calls calls w))
    = Ok (sync_view (run_calls calls w) k)
  ∧ fst (multiGet k (run_calls calls w))
    = Ok (if truthy_opt (sync_view (run_calls calls w) k)
          then sync_view (run_calls calls w) k else None)
  ∧ fst (multiSet k value (run_calls calls w)) = Ok tt
  ∧ fst (multiRemove k (run_calls calls w)) = Ok tt.
Proof.
  intros Hdb Hp.
  destruct (run_calls_idb_disabled (idbStore w) (idb_traffic w) calls w)
    as (H1 & _ & H3 & H4); [done |].
  destruct (writes_without_database k value _ H1) as (? & ?).
  destruct (multiGet_without_database k _ H1) as (? & ?).
  by repeat split.
Qed.

Lemma failed_open_is_final_witness :
  let calls := [CallSet "k" (JString "v"); EnvFaults no_faults;
                CallGet "k"; CallSettle; CallSet "k" (JString "w")] in
  let w := snd (multiGet "k" (set_idbStore {[ "k" := "old" ]} idb_down)) in
  dbPromise w = Some false ∧ pending w = []
  ∧ idb_open_fails (faults (run_calls calls w)) = false
  ∧ idbStore (run_calls calls w) = {[ "k" := "old" ]}
  ∧ idb_traffic (run_calls calls w) = 1%nat
  ∧ fst (multiGet "k" (run_calls calls w)) = Ok (Some "w").
Proof.
  intros calls w.
  assert (H1 : dbPromise w = Some false) by reflexivity.
  assert (H2 : pending w = []) by reflexivity.
  destruct (failed_open_is_final calls "k" (JString "v") w H1 H2)
    as (_ & Hs & Hn & _ & Hg & _).
  exact (conj H1 (conj H2 (conj eq_refl (conj Hs (conj Hn Hg))))).
Defined.

(** ** Tiers that disagree *)

Lemma multiGet_first_hit k v w :
  healthy w → v ≠ EmptyString → fst (multiGet k w) = Ok (Some v) →
  localStorage w !! k = Some v
  ∨ (missing (localStorage w) k ∧ cookieJar w !! k = Some v)
  ∨ (missing (localStorage w) k ∧ missing (cookieJar w) k
     ∧ idbStore w !! k = Some v).
Proof.
  destruct w as [c t cbs db ls ck idb pd f gl ga jp js sv tr].
  unfold healthy, missing. simpl. intros (-> & Hdb) Hv%truthy_true.
  storage_unfold; run; simpl. unfold truthy_opt.
  destruct (ls !! k) as [a |] eqn:Hls; simpl;
    [destruct (truthy a) eqn:Ha; simpl |].
  2,3: destruct (ck !! k) as [b |] eqn:Hck; simpl;
    [destruct (truthy b) eqn:Hb; simpl |].
  all: destruct db as [[|]|]; try done; simpl.
  all: crunch; try (intros [= ->]); try rewrite Ha in *; try rewrite Hb in *;
    simpl in *; try congruence; eauto.
Qed.

Lemma multiGet_settled k v w :
  healthy w → pending w = [] → v ≠ EmptyString →
  fst (multiGet k w) = Ok (Some v) →
  healthy (settle (snd (multiGet k w)))
  ∧ pending (settle (snd (multiGet k w))) = []
  ∧ localStorage (settle (snd (multiGet k w))) !! k = Some v
  ∧ cookieJar (settle (snd (multiGet k w))) !! k = Some v
  ∧ idbStore (settle (snd (multiGet k w))) !! k = Some v.
Proof.
  intros H Hp Hv Hres.
  destruct (multiGet_first_hit k v w H Hv Hres)
    as [Hls | [(Hls & Hck) | (Hls & Hck & Hidb)]].
  all: clear Hres; destruct H as (Hf & Hdb); apply truthy_true in Hv.
  all: destruct w as [c t cbs db ls ck idb pd f gl ga jp js sv tr].
  all: unfold missing, healthy in *; simpl in *; subst f pd.
  all: destruct db as [[|]|]; [ | done | ].
  all: unfold settle; storage_unfold; simpl.
  all: repeat (progress (simpl;
         rewrite ?lookup_insert_eq, ?Hls, ?Hck, ?Hidb, ?Hv)).
  all: repeat split; done.
Qed.

Lemma multiGet_agreeing k v w :
  healthy w → pending w = [] → v ≠ EmptyString →
  localStorage w !! k = Some v → cookieJar w !! k = Some v →
  idbStore w !! k = Some v →
  fst (multiGet k w) = Ok (Some v)
  ∧ localStorage (settle (snd (multiGet k w))) = localStorage w
  ∧ cookieJar (settle (snd (multiGet k w))) = cookieJar w
  ∧ idbStore (settle (snd (multiGet k w))) = idbStore w.
Proof.
  intros (Hf & Hdb) Hp Hv%truthy_true Hls Hck Hidb.
  destruct w as [c t cbs db ls ck idb pd f gl ga jp js sv tr].
  simpl in *; subst f pd.
  destruct db as [[|]|]; [ | done | ].
  all: unfold settle; storage_unfold; simpl.
  all: repeat (progress (simpl; rewrite ?Hls, ?Hv)).
  all: rewrite !insert_id by done; done.
Qed.

(** X6.  The first tier to answer wins and overwrites the others.
    With the three engines working and nothing in flight, suppose
    [multiGet(k)] returns a non-empty [v] -- whatever else the lower
    tiers hold under [k].  Once the event loop has settled, all three
    tiers hold [v]; a second [multiGet(k)] returns [v] again and
    leaves the three tiers as they are. *)
Theorem multiGet_makes_tiers_agree (k v : string) (w : World) :
  healthy w → pending w = [] → v ≠ EmptyString →
  fst (multiGet k w) = Ok (Some v) →
  localStorage (settle (snd (multiGet k w))) !! k = Some v
  ∧ cookieJar (settle (snd (multiGet k w))) !! k = Some v
  ∧ idbStore (settle (snd (multiGet k w))) !! k = Some v
  ∧ fst (multiGet k (settle (snd (multiGet k w)))) = Ok (Some v)
  ∧ localStorage (settle (snd (multiGet k (settle (snd (multiGet k w))))))
    = localStorage (settle (snd (multiGet k w)))
  ∧ cookieJar (settle (snd (multiGet k (settle (snd (multiGet k w))))))
    = cookieJar (settle (snd (multiGet k w)))
  ∧ idbStore (settle (snd (multiGet k (settle (snd (multiGet k w))))))
    = idbStore (settle (snd (multiGet k w))).
Proof.
  intros H Hp Hv Hres.
  destruct (multiGet_settled k v w H Hp Hv Hres)
    as (H' & Hp' & Hls & Hck & Hidb).
  destruct (multiGet_agreeing k v _ H' Hp' Hv Hls Hck Hidb)
    as (? & ? & ? & ?).
  by repeat split.
Qed.

Lemma multiGet_makes_tiers_agree_witness :
  let w := set_localStorage {[ "k" := "a" ]}
             (set_cookieJar {[ "k" := "b" ]}
                (set_idbStore {[ "k" := "c" ]} blank)) in
  healthy w ∧ pending w = [] ∧ "a" ≠ EmptyString
  ∧ fst (multiGet "k" w) = Ok (Some "a")
  ∧ cookieJar (settle (snd (multiGet "k" w))) !! "k" = Some "a"
  ∧ idbStore (settle (snd (multiGet "k" w))) !! "k" = Some "a".
Proof.
  intros w.
  assert (H1 : healthy w) by (split; [reflexivity | discriminate]).
  assert (H2 : pending w = []) by reflexivity.
  assert (H3 : "a" ≠ EmptyString) by discriminate.
  assert (H4 : fst (multiGet "k" w) = Ok (Some "a"))
    by (vm_compute; reflexivity).
  destruct (multiGet_makes_tiers_agree "k" "a" w H1 H2 H3 H4)
    as (_ & Hc & Hi & _).
  exact (conj H1 (conj H2 (conj H3 (conj H4 (conj Hc Hi))))).
Defined.

(** ** When the storage calls reject *)

Lemma multiSet_result k value w :
  fst (multiSet k value w)
  = if idb_fails w then Ok tt
    else if idb_put_fails (faults w) then Throw StorageError else Ok tt.
Proof.
  destruct w as [c t cbs db ls ck idb pd f gl ga jp js sv tr].
  destruct f as [f1 f2 f3 f4 f5 f6 f7 f8 f9 f10].
  unfold idb_fails. storage_unfold. simpl.
  by destruct f2, f5, db as [[|]|], f7, f8.
Qed.

Lemma multiRemove_result k w :
  fst (multiRemove k w)
  = if idb_fails w then Ok tt
    else if idb_delete_fails (faults w) then Throw StorageError else Ok tt.
Proof.
  destruct w as [c t cbs db ls ck idb pd f gl ga jp js sv tr].
  destruct f as [f1 f2 f3 f4 f5 f6 f7 f8 f9 f10].
  unfold idb_fails. storage_unfold. simpl.
  by destruct f3, f6, db as [[|]|], f7, f10.
Qed.

Lemma multiGet_result k w :
  fst (multiGet k w)
  = if truthy_opt (sync_view w k) then Ok (sync_view w k)
    else if idb_fails w then Ok None
    else if idb_get_fails (faults w) then Throw StorageError
    else Ok (idbStore w !! k).
Proof.
  destruct w as [c t cbs db ls ck idb pd f gl ga jp js sv tr].
  destruct f as [f1 f2 f3 f4 f5 f6 f7 f8 f9 f10].
  unfold idb_fails, sync_view, ls_seen, cookie_seen.
  storage_unfold; run; simpl.
  destruct f1, f4; simpl.
  all: try (destruct (ls !! k) as [a |] eqn:Hls; simpl;
            [destruct (truthy a) eqn:Ha; simpl |]).
  all: try (destruct (ck !! k) as [b |] eqn:Hck; simpl;
            [destruct (truthy b) eqn:Hb; simpl |]).
  all: destruct db as [[|]|], f7, f9; simpl; try done.
  all: try (destruct (idb !! k) as [d |] eqn:Hidb; simpl;
            [destruct (truthy d) eqn:Hd; simpl |]); try done.
  all: repeat (progress (rewrite ?Ha, ?Hb, ?Hd; simpl)); try done.
  all: by destruct f2, f5.
Qed.

(** X7.  The storage calls reject in one situation each, and only
    there: the database is open (or opens) and the IndexedDB request
    the call makes errors.  For [multiGet] the request is made only
    when neither synchronous tier has a non-empty value; a hit in
    localStorage or in the cookie is returned without IndexedDB being
    read, so it cannot reject.  What [multiGet] returns is the value
    the synchronous tiers give when that is non-empty, and otherwise
    what IndexedDB holds ([null] when the database does not open). *)
Theorem storage_calls_reject_exactly_when (k : string) (value : JsValue)
    (w : World) :
  (fst (multiSet k value w) = Throw StorageError
   ↔ idb_fails w = false ∧ idb_put_fails (faults w) = true)
  ∧ (fst (multiRemove k w) = Throw StorageError
     ↔ idb_fails w = false ∧ idb_delete_fails (faults w) = true)
  ∧ (fst (multiGet k w) = Throw StorageError
     ↔ truthy_opt (sync_view w k) = false
       ∧ idb_fails w = false ∧ idb_get_fails (faults w) = true)
  ∧ fst (multiGet k w)
    = (if truthy_opt (sync_view w k) then Ok (sync_view w k)
       else if idb_fails w then Ok None
       else if idb_get_fails (faults w) then Throw StorageError
       else Ok (idbStore w !! k)).
Proof.
  rewrite multiSet_result, multiRemove_result, multiGet_result.
  split;
    [destruct (idb_fails w), (idb_put_fails (faults w));
     intuition congruence |].
  split;
    [destruct (idb_fails w), (idb_delete_fails (faults w));
     intuition congruence |].
  split; [| done].
  destruct (truthy_opt (sync_view w k)), (idb_fails w),
    (idb_get_fails (faults w)); intuition congruence.
Qed.

(** * More of the session controller *)

(** ** What never rejects *)

Lemma never_rejects_ret {A} (a : A) : never_rejects (ret a).
Proof. intros w. by exists a. Qed.

Lemma never_rejects_get {A} (f : World → A) : never_rejects (get f).
Proof. intros w. by exists (f w). Qed.

Lemma never_rejects_bind {A B} (m : M A) (f : A → M B) :
  never_rejects m → (∀ a, never_rejects (f a)) → never_rejects (bind m f).
Proof.
  intros Hm Hf w. unfold bind. destruct (Hm w) as (a & Ha).
  destruct (m w) as [[a' | e] w1]; simpl in Ha; [| discriminate].
  apply Hf.
Qed.

Lemma never_rejects_try_catch {A} (m : M A) (h : Error → M A) :
  (∀ e, never_rejects (h e)) → never_rejects (try_catch m h).
Proof.
  intros Hh w. unfold try_catch. destruct (m w) as [[a | e] w1].
  - by exists a.
  - apply Hh.
Qed.

Lemma getCurrentUserSync_never_rejects : never_rejects getCurrentUserSync.
Proof.
  intros w. destruct (getCurrentUserSync w) as [r w'] eqn:E.
  apply getCurrentUserSync_spec in E as (-> & _). by eexists.
Qed.

Lemma fetchUserInfo_never_rejects : never_rejects fetchUserInfo.
Proof.
  unfold fetchUserInfo, getAccessToken.
  apply never_rejects_bind; [apply never_rejects_get |]. intros token.
  destruct (negb (truthy_opt token)); [apply never_rejects_ret |].
  apply never_rejects_try_catch. intros _. apply never_rejects_ret.
Qed.

Lemma refreshToken_never_rejects : never_rejects refreshToken.
Proof.
  unfold refreshToken. apply never_rejects_try_catch.
  intros _. apply never_rejects_ret.
Qed.

Lemma initializeAuth_never_rejects : never_rejects initializeAuth.
Proof.
  assert (Hinit : ∀ r : option GoogleUser,
            never_rejects (do! try_catch initGoogleAuth (λ _, ret tt) in ret r)).
  { intros r. apply never_rejects_bind.
    - apply never_rejects_try_catch. intros _. apply never_rejects_ret.
    - intros _. apply never_rejects_ret. }
  unfold initializeAuth.
  apply never_rejects_bind; [apply never_rejects_get |]. intros token.
  apply never_rejects_bind.
  { destruct (truthy_opt token);
      [apply fetchUserInfo_never_rejects | apply never_rejects_ret]. }
  intros [u |]; [apply never_rejects_ret |].
  apply never_rejects_bind; [apply getCurrentUserSync_never_rejects |].
  intros [u0 |]; [| apply Hinit].
  apply never_rejects_bind.
  { apply never_rejects_try_catch. intros _. apply never_rejects_ret. }
  intros [u |]; [apply never_rejects_ret | apply Hinit].
Qed.

(** X8.  [initializeAuth()], [fetchUserInfo()] and [refreshToken()]
    never reject: whatever the server answers, whatever the storage
    engines do -- an IndexedDB request erroring included, which makes
    [multiSet] and [signOut] reject -- and whether or not the Google
    script loads, each of them resolves. *)
Theorem session_restore_never_rejects :
  never_rejects initializeAuth ∧ never_rejects fetchUserInfo
  ∧ never_rejects refreshToken.
Proof.
  split; [apply initializeAuth_never_rejects |].
  split; [apply fetchUserInfo_never_rejects | apply refreshToken_never_rejects].
Qed.

(** ** The profile request *)

Lemma multiSet_spec k value w r w' :
  multiSet k value w = (r, w') →
  let stringValue := match value with
                     | JString s => s
                     | JObject u => JSON_stringify w u
                     end in
  same_setup w w' ∧ same_session w w'
  ∧ adds (stamped (accessToken w) is_storage) w w'
  ∧ (idb_put_fails (faults w) = false → r = Ok tt)
  ∧ (idb_fails w = false → idb_put_fails (faults w) = true →
     r = Throw StorageError)
  ∧ (ls_set_throws (faults w) = false →
     localStorage w' !! k = Some stringValue)
  ∧ (cookie_set_fails (faults w) = false →
     cookieJar w' !! k = Some stringValue)
  ∧ (idb_fails w = false → idb_put_fails (faults w) = false →
     idbStore w' !! k = Some stringValue).
Proof.
  destruct w as [c t cbs db ls ck idb pd f gl ga jp js sv tr].
  destruct f as [f1 f2 f3 f4 f5 f6 f7 f8 f9 f10].
  unfold idb_fails. storage_unfold. simpl.
  destruct value as [s | u], f2, f5, db as [[|]|], f7, f8; simpl;
    intros [= <- <-].
  all: frames; try done; try solve_stamped.
  all: intros; apply lookup_insert_eq.
Qed.

Lemma fetchUserInfo_no_token w :
  truthy_opt (accessToken w) = false → fetchUserInfo w = (Ok None, w).
Proof. intros H. unfold fetchUserInfo, getAccessToken. run. by rewrite H. Qed.

Lemma fetchUserInfo_eq w :
  truthy_opt (accessToken w) = true →
  fetchUserInfo w
  = let req := me_request w (accessToken w) in
    let w1 := log (EvFetch req) w in
    match server w (fetched w) req with
    | NetworkError => (Ok None, w1)
    | Responded r =>
        if ok r
        then match json_body r with
             | None => (Ok None, w1)
             | Some data =>
                 let user := profile_of data in
                 match multiSet (getStorageKeys_user w1) (JObject user) w1 with
                 | (Ok _, w2) =>
                     (Ok (Some user),
                      snd (notifyAuthStateChange (Some user) w2))
                 | (Throw _, w2) => (Ok None, w2)
                 end
             end
        else if (status r =? 401)%nat then (Ok None, snd (signOut w1))
        else (Ok None, w1)
    end.
Proof.
  intros H. unfold fetchUserInfo, getAccessToken. run. rewrite H. simpl.
  rewrite fetch_eq.
  destruct (server w (fetched w) _) as [r |]; [| done].
  destruct (ok r); simpl.
  - unfold json. destruct (json_body r) as [data |]; [| done]. run.
    unfold profile_of.
    by destruct (multiSet _ _ _) as [[[] | e] w2].
  - destruct (status r =? 401)%nat; simpl; [| done].
    by destruct (signOut _) as [[[] | e] w2].
Qed.

(** X9.  A profile request that fails gives [null] and nothing else.
    Without a token [fetchUserInfo()] returns [null] and does nothing
    at all, not even send a request.  With a token, a network error, a
    non-2xx answer other than 401, or a 2xx answer whose body does not
    parse makes it return [null] having sent the one request: the
    token, the stores and the subscribers are not touched.  Only a 401
    signs the user out: the token is cleared, and [null] is returned
    even when [signOut] itself rejects. *)
Theorem fetchUserInfo_failure_is_null (w : World) :
  let req := me_request w (accessToken w) in
  (truthy_opt (accessToken w) = false → fetchUserInfo w = (Ok None, w))
  ∧ (truthy_opt (accessToken w) = true →
     (server w (fetched w) req = NetworkError
      ∨ (∃ r, server w (fetched w) req = Responded r
              ∧ ((ok r = false ∧ status r ≠ 401%nat)
                 ∨ (ok r = true ∧ json_body r = None))) →
      fetchUserInfo w = (Ok None, log (EvFetch req) w))
     ∧ (∀ r, server w (fetched w) req = Responded r → status r = 401%nat →
        fetchUserInfo w = (Ok None, snd (signOut (log (EvFetch req) w)))
        ∧ accessToken (snd (fetchUserInfo w)) = None)).
Proof.
  intros req. split; [apply fetchUserInfo_no_token |].
  intros Htok. rewrite (fetchUserInfo_eq w Htok). fold req. simpl. split.
  - intros [-> | (r & -> & [(Hok & Hst) | (Hok & Hbody)])]; [done | |].
    + rewrite Hok. apply Nat.eqb_neq in Hst. by rewrite Hst.
    + by rewrite Hok, Hbody.
  - intros r -> Hst. unfold ok. rewrite Hst. simpl. split; [done |].
    destruct (signOut (log (EvFetch req) w)) as [rs ws] eqn:Es.
    by apply signOut_spec in Es as (_ & ? & _).
Qed.

Lemma fetchUserInfo_failure_is_null_witness :
  truthy_opt (accessToken signed_in) = true
  ∧ server signed_in (fetched signed_in)
      (me_request signed_in (accessToken signed_in)) = NetworkError
  ∧ fetchUserInfo signed_in
    = (Ok None,
       log (EvFetch (me_request signed_in (accessToken signed_in)))
         signed_in).
Proof.
  assert (H1 : truthy_opt (accessToken signed_in) = true) by reflexivity.
  assert (H2 : server signed_in (fetched signed_in)
                 (me_request signed_in (accessToken signed_in))
               = NetworkError) by reflexivity.
  destruct (fetchUserInfo_failure_is_null signed_in) as (_ & H).
  destruct (H H1) as (Hfail & _).
  exact (conj H1 (conj H2 (Hfail (or_introl H2)))).
Defined.

Lemma fetchUserInfo_ok w r data :
  truthy_opt (accessToken w) = true →
  server w (fetched w) (me_request w (accessToken w)) = Responded r →
  ok r = true → json_body r = Some data →
  same_setup w (snd (fetchUserInfo w))
  ∧ same_session w (snd (fetchUserInfo w))
  ∧ fetched (snd (fetchUserInfo w))
    = fetched w ++ [me_request w (accessToken w)]
  ∧ adds (λ e, is_gis (ev e) = false) w (snd (fetchUserInfo w))
  ∧ (idb_put_fails (faults w) = false →
     fst (fetchUserInfo w) = Ok (Some (profile_of data))
     ∧ notified (snd (fetchUserInfo w))
       = notified w
         ++ ((λ cb, EvNotify cb (Some (profile_of data)))
               <$> authStateCallbacks w))
  ∧ (idb_fails w = false → idb_put_fails (faults w) = true →
     fst (fetchUserInfo w) = Ok None
     ∧ notified (snd (fetchUserInfo w)) = notified w)
  ∧ (ls_set_throws (faults w) = false →
     localStorage (snd (fetchUserInfo w)) !! getStorageKeys_user w
     = Some (JSON_stringify w (profile_of data)))
  ∧ (cookie_set_fails (faults w) = false →
     cookieJar (snd (fetchUserInfo w)) !! getStorageKeys_user w
     = Some (JSON_stringify w (profile_of data)))
  ∧ (idb_fails w = false → idb_put_fails (faults w) = false →
     idbStore (snd (fetchUserInfo w)) !! getStorageKeys_user w
     = Some (JSON_stringify w (profile_of data))).
Proof.
  intros Htok Hreply Hok Hbody.
  rewrite (fetchUserInfo_eq w Htok). cbv zeta. rewrite Hreply, Hok, Hbody.
  set (req := me_request w (accessToken w)).
  destruct (log_frame (EvFetch req) w) as (Lsu & Lse & Lst & Lt).
  set (w1 := log (EvFetch req) w) in *.
  set (user := profile_of data).
  assert (Hkey : getStorageKeys_user w1 = getStorageKeys_user w)
    by (by apply key_frame).
  assert (Hf1 : faults w1 = faults w) by apply Lsu.
  assert (Hjs1 : JSON_stringify w1 = JSON_stringify w) by apply Lsu.
  assert (Hfails1 : idb_fails w1 = idb_fails w).
  { unfold idb_fails. destruct Lst as (_ & _ & _ & -> & _). by rewrite Hf1. }
  assert (Hfe1 : fetched w1 = fetched w ++ [req]) by apply fetched_log.
  assert (Hno1 : notified w1 = notified w).
  { unfold w1. by rewrite notified_log, app_nil_r. }
  assert (Ha1 : adds (λ e, is_gis (ev e) = false) w w1).
  { exists [mkEntry (EvFetch req) (accessToken w)]. split; [done |].
    by constructor. }
  rewrite Hkey.
  destruct (multiSet (getStorageKeys_user w) (JObject user) w1)
    as [rs w2] eqn:Es.
  apply multiSet_spec in Es
    as (Hsu2 & Hse2 & Ha2 & Hok2 & Hthrow2 & Hls2 & Hck2 & Hidb2).
  rewrite Hf1, Hfails1, Hjs1 in *.
  assert (Hfe2 : fetched w2 = fetched w1).
  { eapply adds_fetched; [exact Ha2 |]. intros e [He _]. by destruct (ev e). }
  assert (Hno2 : notified w2 = notified w1).
  { eapply adds_notified; [exact Ha2 |]. intros e [He _]. by destruct (ev e). }
  assert (Ha02 : adds (λ e, is_gis (ev e) = false) w w2).
  { eapply adds_trans; [exact Ha1 |]. eapply adds_mono; [| exact Ha2].
    intros e [He _]. by destruct (ev e). }
  assert (Hsu02 : same_setup w w2) by (eapply same_setup_trans; eauto).
  assert (Hse02 : same_session w w2) by (eapply same_session_trans; eauto).
  destruct rs as [[] | e].
  - destruct (notifyAuthStateChange (Some user) w2) as [rn w3] eqn:En.
    pose proof (notifyAuthStateChange_effect _ _ _ _ En) as (Ha3 & Hfe3 & Hno3).
    apply notifyAuthStateChange_spec in En as (_ & Hsu3 & Hse3 & Hst3 & _).
    simpl.
    split; [eapply same_setup_trans; eauto |].
    split; [eapply same_session_trans; eauto |].
    split; [by rewrite Hfe3, Hfe2 |].
    split.
    { eapply adds_trans; [exact Ha02 |]. eapply adds_mono; [| exact Ha3].
      intros e [He _]. by destruct (ev e). }
    split.
    { intros _. split; [done |]. rewrite Hno3, Hno2, Hno1.
      by destruct Hsu02 as (_ & -> & _). }
    split.
    { intros H1 H2. by specialize (Hthrow2 H1 H2). }
    destruct Hst3 as (-> & -> & -> & _). done.
  - simpl.
    split; [done |]. split; [done |]. split; [by rewrite Hfe2 |].
    split; [done |]. split.
    { intros H1. by specialize (Hok2 H1). }
    split; [intros _ _; split; [done | by rewrite Hno2] |]. done.
Qed.

(** X10.  A profile request that succeeds.  With a token in memory and
    a 2xx answer to [GET /auth/me] whose body parses, [fetchUserInfo()]
    sends that one request with the token as bearer and keeps the
    token.  The identity built from the body is written under the user
    key to localStorage and to the cookie (to each that takes the
    write) before IndexedDB is tried.  When the IndexedDB put does not
    error, the identity is returned and every subscriber is notified
    with it, once, in subscription order.  When the put errors, [null]
    is returned and nobody is notified -- although the two synchronous
    tiers already hold the new identity. *)
Theorem fetchUserInfo_success (w : World) (r : Response) (data : Json) :
  truthy_opt (accessToken w) = true →
  server w (fetched w) (me_request w (accessToken w)) = Responded r →
  ok r = true → json_body r = Some data →
  accessToken (snd (fetchUserInfo w)) = accessToken w
  ∧ fetched (snd (fetchUserInfo w))
    = fetched w ++ [me_request w (accessToken w)]
  ∧ (ls_set_throws (faults w) = false →
     localStorage (snd (fetchUserInfo w)) !! getStorageKeys_user w
     = Some (JSON_stringify w (profile_of data)))
  ∧ (cookie_set_fails (faults w) = false →
     cookieJar (snd (fetchUserInfo w)) !! getStorageKeys_user w
     = Some (JSON_stringify w (profile_of data)))
  ∧ (idb_put_fails (faults w) = false →
     fst (fetchUserInfo w) = Ok (Some (profile_of data))
     ∧ notified (snd (fetchUserInfo w))
       = notified w
         ++ ((λ cb, EvNotify cb (Some (profile_of data)))
               <$> authStateCallbacks w))
  ∧ (idb_fails w = false → idb_put_fails (faults w) = true →
     fst (fetchUserInfo w) = Ok None
     ∧ notified (snd (fetchUserInfo w)) = notified w).
Proof.
  intros Htok Hreply Hok Hbody.
  destruct (fetchUserInfo_ok w r data Htok Hreply Hok Hbody)
    as (_ & (Ht & _) & Hfe & _ & Hgood & Hbad & Hls & Hck & _).
  split; [exact Ht |]. split; [exact Hfe |]. split; [exact Hls |].
  split; [exact Hck |]. split; [exact Hgood | exact Hbad].
Qed.

Lemma fetchUserInfo_success_witness :
  truthy_opt (accessToken signed_in_online) = true
  ∧ server signed_in_online (fetched signed_in_online)
      (me_request signed_in_online (accessToken signed_in_online))
    = Responded (mkResp 200 (Some ada_profile))
  ∧ ok (mkResp 200 (Some ada_profile)) = true
  ∧ json_body (mkResp 200 (Some ada_profile)) = Some ada_profile
  ∧ fst (fetchUserInfo signed_in_online) = Ok (Some (profile_of ada_profile))
  ∧ notified (snd (fetchUserInfo signed_in_online))
    = [EvNotify 1 (Some (profile_of ada_profile));
       EvNotify 2 (Some (profile_of ada_profile))].
Proof.
  assert (H1 : truthy_opt (accessToken signed_in_online) = true)
    by reflexivity.
  assert (H2 : server signed_in_online (fetched signed_in_online)
                 (me_request signed_in_online (accessToken signed_in_online))
               = Responded (mkResp 200 (Some ada_profile))) by reflexivity.
  assert (H3 : ok (mkResp 200 (Some ada_profile)) = true) by reflexivity.
  assert (H4 : json_body (mkResp 200 (Some ada_profile)) = Some ada_profile)
    by reflexivity.
  destruct (fetchUserInfo_success signed_in_online _ _ H1 H2 H3 H4)
    as (_ & _ & _ & _ & Hgood & _).
  destruct (Hgood eq_refl) as (Hr & Hn).
  exact (conj H1 (conj H2 (conj H3 (conj H4 (conj Hr Hn))))).
Defined.

(** ** Restoring a session *)

Lemma initializeAuth_fresh_user w u :
  truthy_opt (accessToken w) = true →
  fst (fetchUserInfo w) = Ok (Some u) →
  initializeAuth w = fetchUserInfo w.
Proof.
  intros Htok Hr. unfold initializeAuth. run. rewrite Htok.
  destruct (fetchUserInfo w) as [[[u' |] | e] w1]; simpl in Hr; by simplify_eq.
Qed.

(** X11.  A live token short-cuts the restore.  When a token is in
    memory and the profile request succeeds, [initializeAuth()] is that
    one request and nothing more: it resolves to the identity the
    server sent, the token is kept, no refresh request is made, the
    subscribers are notified with the identity, and the Google script
    is not touched. *)
Theorem initializeAuth_with_live_token (w : World) (r : Response)
    (data : Json) :
  truthy_opt (accessToken w) = true →
  server w (fetched w) (me_request w (accessToken w)) = Responded r →
  ok r = true → json_body r = Some data →
  idb_put_fails (faults w) = false →
  fst (initializeAuth w) = Ok (Some (profile_of data))
  ∧ accessToken (snd (initializeAuth w)) = accessToken w
  ∧ fetched (snd (initializeAuth w))
    = fetched w ++ [me_request w (accessToken w)]
  ∧ notified (snd (initializeAuth w))
    = notified w
      ++ ((λ cb, EvNotify cb (Some (profile_of data)))
            <$> authStateCallbacks w)
  ∧ adds (λ e, is_gis (ev e) = false) w (snd (initializeAuth w)).
Proof.
  intros Htok Hreply Hok Hbody Hput.
  destruct (fetchUserInfo_ok w r data Htok Hreply Hok Hbody)
    as (_ & (Ht & _) & Hfe & Hgis & Hgood & _).
  destruct (Hgood Hput) as (Hr & Hno).
  rewrite (initializeAuth_fresh_user w _ Htok Hr). done.
Qed.

Lemma initializeAuth_with_live_token_witness :
  truthy_opt (accessToken signed_in_online) = true
  ∧ server signed_in_online (fetched signed_in_online)
      (me_request signed_in_online (accessToken signed_in_online))
    = Responded (mkResp 200 (Some ada_profile))
  ∧ ok (mkResp 200 (Some ada_profile)) = true
  ∧ json_body (mkResp 200 (Some ada_profile)) = Some ada_profile
  ∧ idb_put_fails (faults signed_in_online) = false
  ∧ fst (initializeAuth signed_in_online)
    = Ok (Some (profile_of ada_profile))
  ∧ fetched (snd (initializeAuth signed_in_online))
    = [me_request signed_in_online (Some "t1")].
Proof.
  assert (H1 : truthy_opt (accessToken signed_in_online) = true)
    by reflexivity.
  assert (H2 : server signed_in_online (fetched signed_in_online)
                 (me_request signed_in_online (accessToken signed_in_online))
               = Responded (mkResp 200 (Some ada_profile))) by reflexivity.
  assert (H3 : ok (mkResp 200 (Some ada_profile)) = true) by reflexivity.
  assert (H4 : json_body (mkResp 200 (Some ada_profile)) = Some ada_profile)
    by reflexivity.
  assert (H5 : idb_put_fails (faults signed_in_online) = false)
    by reflexivity.
  destruct (initializeAuth_with_live_token signed_in_online _ _
              H1 H2 H3 H4 H5) as (Hr & _ & Hf & _).
  exact (conj H1 (conj H2 (conj H3 (conj H4 (conj H5 (conj Hr Hf)))))).
Defined.

Lemma granted_token_inv reply t :
  granted_token reply = Some t →
  truthy t = true
  ∧ ∃ r data, reply = Responded r ∧ ok r = true ∧ json_body r = Some data
              ∧ j_access_token data = Some t.
Proof.
  unfold granted_token. destruct reply as [r |]; [| done].
  destruct (ok r) eqn:Hok; [| done].
  destruct (json_body r) as [data |] eqn:Hbody; [| done].
  destruct (j_success data); simpl; [| done].
  destruct (j_access_token data) as [t' |] eqn:Ht; simpl; [| done].
  destruct (truthy t') eqn:Htr; [| done]. intros [= ->].
  split; [done |]. by exists r, data.
Qed.

Lemma refreshToken_granted w t :
  granted_token (server w (fetched w) (refresh_request w)) = Some t →
  refreshToken w
  = (Ok true, set_accessToken (Some t) (log (EvFetch (refresh_request w)) w)).
Proof.
  intros Hg. rewrite refreshToken_eq.
  destruct (granted_token_inv _ _ Hg) as (_ & r & data & Hreply & Hok & _).
  rewrite Hreply in *. by rewrite Hok, Hg.
Qed.




(** ** Requests that need no refresh *)

(** X13.  [authenticatedFetch] outside the 401 path.  Without a token
    the request goes out with the caller's headers as they are, and
    its outcome is the outcome of the call, a 401 included: nothing is
    refreshed and nobody is signed out.  With a token [t] the request
    carries [Authorization: Bearer t]; a network failure rejects the
    call, and an answer other than 401 is returned as it is.  In all
    these cases the one request is the only thing that happened. *)
Theorem authenticatedFetch_passes_through (url : string)
    (options : RequestInit) (w : World) :
  (truthy_opt (accessToken w) = false →
   authenticatedFetch url options w
   = (match server w (fetched w) (plain_request url options) with
      | Responded r => Ok r
      | NetworkError => Throw FetchFailed
      end, log (EvFetch (plain_request url options)) w))
  ∧ (∀ t, accessToken w = Some t → truthy t = true →
     (server w (fetched w) (authorized_request url options t) = NetworkError →
      authenticatedFetch url options w
      = (Throw FetchFailed,
         log (EvFetch (authorized_request url options t)) w))
     ∧ (∀ r, server w (fetched w) (authorized_request url options t)
             = Responded r →
        status r ≠ 401%nat →
        authenticatedFetch url options w
        = (Ok r, log (EvFetch (authorized_request url options t)) w))).
Proof.
  unfold authenticatedFetch, getAccessToken, plain_request,
    authorized_request.
  split.
  - intros Htok. run. rewrite Htok, fetch_eq.
    destruct (server w (fetched w) _) as [r |]; [| done].
    by rewrite andb_false_r.
  - intros t Ht Htr. run. rewrite Ht. simpl. rewrite Htr, fetch_eq. split.
    + by intros ->.
    + intros r -> Hst. apply Nat.eqb_neq in Hst. by rewrite Hst.
Qed.

Lemma authenticatedFetch_passes_through_witness :
  truthy_opt (accessToken reloaded_rejected) = false
  ∧ authenticatedFetch "https://api/items" get_items reloaded_rejected
    = (Ok (mkResp 401 None),
       log (EvFetch (plain_request "https://api/items" get_items))
         reloaded_rejected).
Proof.
  assert (H : truthy_opt (accessToken reloaded_rejected) = false)
    by reflexivity.
  destruct (authenticatedFetch_passes_through "https://api/items" get_items
              reloaded_rejected) as (Hplain & _).
  exact (conj H (Hplain H)).
Defined.

(** ** Signing out *)

Lemma multiRemove_other_key k k' w :
  k' ≠ k →
  localStorage (snd (multiRemove k w)) !! k' = localStorage w !! k'
  ∧ cookieJar (snd (multiRemove k w)) !! k' = cookieJar w !! k'
  ∧ idbStore (snd (multiRemove k w)) !! k' = idbStore w !! k'.
Proof.
  intros Hk.
  destruct w as [c t cbs db ls ck idb pd f gl ga jp js sv tr].
  storage_unfold; run; simpl; crunch;
    rewrite ?lookup_delete_ne by done; done.
Qed.

Lemma multiRemove_rejected k w r w' :
  multiRemove k w = (r, w') →
  idb_fails w = false → idb_delete_fails (faults w) = true →
  r = Throw StorageError
  ∧ (ls_remove_throws (faults w) = false → localStorage w' !! k = None)
  ∧ (cookie_delete_fails (faults w) = false → cookieJar w' !! k = None)
  ∧ idbStore w' = idbStore w.
Proof.
  destruct w as [c t cbs db ls ck idb pd f gl ga jp js sv tr].
  destruct f as [f1 f2 f3 f4 f5 f6 f7 f8 f9 f10].
  unfold idb_fails. storage_unfold. simpl.
  destruct f3, f6, db as [[|]|], f7, f10; simpl; intros [= <- <-] ? ?;
    simplify_eq; repeat split; try done; intros; apply lookup_delete_eq.
Qed.

(** The course of a [signOut()]: the cached identity is read and the
    token cleared ([w2]); the user key is removed from the three tiers
    ([w3]); if that rejects, [signOut] rejects there and then;
    otherwise the Google script is told ([w4]), the logout request is
    sent if there was a token ([w5]), the subscribers are notified
    ([w6]) and the Google script is initialised again. *)
Lemma signOut_steps w :
  ∃ w2 r3 w3,
    same_setup w w2 ∧ same_stores w w2
    ∧ gis_loaded w2 = gis_loaded w ∧ accessToken w2 = None
    ∧ adds (stamped (accessToken w) is_sync_read) w w2
    ∧ multiRemove (getStorageKeys_user w) w2 = (r3, w3)
    ∧ match r3 with
      | Throw e => signOut w = (Throw e, w3)
      | Ok _ =>
          ∃ w4 w5 w6,
            same_setup w3 w4 ∧ same_session w3 w4 ∧ same_stores w3 w4
            ∧ adds (stamped None is_gis) w3 w4
            ∧ w5 = (if truthy_opt (accessToken w)
                    then log (EvFetch (logout_request w (accessToken w))) w4
                    else w4)
            ∧ notifyAuthStateChange None w5 = (Ok tt, w6)
            ∧ signOut w = try_catch initGoogleAuth (λ _, ret tt) w6
            ∧ same_stores w3 (snd (signOut w))
            ∧ gis_loaded w6 = gis_loaded w
      end.
Proof.
  destruct (signOut w) as [r w'] eqn:H. unfold signOut in H.
  apply bind_inv in H as [(user & w1 & E1 & H) | (e & E1 & _)]; cycle 1.
  { apply getCurrentUserSync_spec in E1 as (Hr & _). discriminate Hr. }
  apply getCurrentUserSync_spec in E1 as (_ & Hsu1 & Hse1 & Hst1 & Ha1).
  step_pure H. step_pure H. step_pure H.
  destruct (set_accessToken_frame None w1)
    as (Hsu2 & Hst2 & Hgl2 & Ht2 & Htok2).
  set (w2 := set_accessToken None w1) in *.
  assert (Hsu02 : same_setup w w2) by (eapply same_setup_trans; eauto).
  rewrite (key_frame _ _ Hsu02) in H.
  destruct Hse1 as (Htok1 & Hgl1). rewrite Htok1 in H.
  destruct (multiRemove (getStorageKeys_user w) w2) as [r3 w3] eqn:E3.
  exists w2, r3, w3.
  split; [exact Hsu02 |].
  split; [eapply same_stores_trans; eauto |].
  split; [by rewrite Hgl2 |]. split; [exact Htok2 |].
  split; [eapply adds_same_trace; eauto |]. split; [done |].
  unfold bind at 1 in H. rewrite E3 in H.
  destruct r3 as [[] | e]; [| done].
  pose proof E3 as E3'.
  apply multiRemove_spec in E3' as (Hsu3 & Hse3 & _).
  assert (Htok3 : accessToken w3 = None) by (destruct Hse3 as [-> _]; done).
  step_pure H.
  apply bind_inv in H as [(? & w4 & E4 & H) | (e & E4 & _)]; cycle 1.
  { apply gis_teardown_spec in E4 as (Hr & _). discriminate Hr. }
  apply gis_teardown_spec in E4 as (_ & Hsu4 & Hse4 & Hst4 & Ha4).
  rewrite Htok3 in Ha4.
  apply bind_inv in H as [(? & w5 & E5 & H) | (e & E5 & _)]; cycle 1.
  { apply logout_call_spec in E5 as (Hr & _). discriminate Hr. }
  apply logout_call_spec in E5 as (_ & Hw5).
  assert (Hsu04 : same_setup w w4).
  { eapply same_setup_trans; [exact Hsu02 |].
    eapply same_setup_trans; eauto. }
  assert (Hreq : logout_request w4 (accessToken w)
                 = logout_request w (accessToken w)).
  { unfold logout_request. by destruct Hsu04 as (-> & _). }
  rewrite Hreq in Hw5.
  apply bind_inv in H as [(u6 & w6 & E6 & H) | (e & E6 & _)]; cycle 1.
  { apply notifyAuthStateChange_spec in E6 as (Hr & _). discriminate Hr. }
  destruct u6.
  assert (same_stores w4 w5 ∧ same_session w4 w5) as [Hst45 Hse45].
  { rewrite Hw5. destruct (truthy_opt (accessToken w)).
    - split; apply log_frame.
    - split; [apply same_stores_refl | apply same_session_refl]. }
  pose proof E6 as E6'.
  apply notifyAuthStateChange_spec in E6' as (_ & _ & Hse6 & Hst6 & _).
  pose proof H as H'.
  apply initGoogleAuth_spec in H' as (_ & _ & _ & Hst7 & _).
  exists w4, w5, w6. split_and!; try done.
  - simpl. eapply same_stores_trans; [exact Hst4 |].
    eapply same_stores_trans; [exact Hst45 |].
    eapply same_stores_trans; [exact Hst6 | exact Hst7].
  - destruct Hse6 as (_ & ->). destruct Hse45 as (_ & ->).
    destruct Hse4 as (_ & ->). destruct Hse3 as (_ & ->).
    by rewrite Hgl2.
Qed.

Lemma string_app_inv_l (p a b : string) : p +:+ a = p +:+ b → a = b.
Proof. induction p as [| c p IH]; simpl; [done |]. intros [= H]. auto. Qed.

Lemma signOut_other_key k w :
  k ≠ getStorageKeys_user w →
  localStorage (snd (signOut w)) !! k = localStorage w !! k
  ∧ cookieJar (snd (signOut w)) !! k = cookieJar w !! k
  ∧ idbStore (snd (signOut w)) !! k = idbStore w !! k.
Proof.
  intros Hk.
  destruct (signOut_steps w)
    as (w2 & r3 & w3 & _ & Hst2 & _ & _ & _ & E3 & Hrest).
  destruct (multiRemove_other_key (getStorageKeys_user w) k w2 Hk)
    as (Hl & Hc & Hi).
  rewrite E3 in Hl, Hc, Hi. simpl in *.
  destruct Hst2 as (Hl2 & Hc2 & Hi2 & _). rewrite Hl2, Hc2, Hi2 in *.
  destruct r3 as [[] | e].
  - destruct Hrest as (w4 & w5 & w6 & _ & _ & _ & _ & _ & _ & _ & Hst & _).
    destruct Hst as (-> & -> & -> & _). done.
  - by rewrite Hrest.
Qed.


Lemma isAuthenticated_no_token w :
  accessToken w = None → isAuthenticated w = (Ok false, w).
Proof. intros H. unfold isAuthenticated. run. by rewrite H. Qed.

(** X14.  What is left after [signOut()], whether it completed or
    rejected half-way: the token is [null], [isAuthenticated()] is
    false, [fetchUserInfo()] returns [null] without sending anything,
    and a request made through [authenticatedFetch] goes out with no
    [Authorization] header added. *)
Theorem signed_out_after_signOut (url : string) (options : RequestInit)
    (w : World) :
  fst (getAccessToken (snd (signOut w))) = Ok None
  ∧ isAuthenticated (snd (signOut w)) = (Ok false, snd (signOut w))
  ∧ fetchUserInfo (snd (signOut w)) = (Ok None, snd (signOut w))
  ∧ snd (authenticatedFetch url options (snd (signOut w)))
    = log (EvFetch (plain_request url options)) (snd (signOut w)).
Proof.
  destruct (signOut w) as [r w'] eqn:E. simpl.
  apply signOut_spec in E as (_ & Htok & _).
  split; [unfold getAccessToken, get; simpl; by rewrite Htok |].
  split; [by apply isAuthenticated_no_token |].
  split; [apply fetchUserInfo_no_token; by rewrite Htok |].
  unfold authenticatedFetch, getAccessToken, plain_request. run.
  rewrite Htok, fetch_eq. simpl.
  destruct (server w' (fetched w') _) as [resp |]; [| done].
  by rewrite andb_false_r.
Qed.

(** X15.  The requests of a sign-out, and signing out twice.  When the
    IndexedDB delete request does not error, [signOut()] sends exactly
    one request if there was a token -- the logout request, carrying
    the token it has just cleared from memory -- and none if there was
    not.  A second [signOut()] completes as well; it sends nothing, and
    notifies every subscriber with [null] once more. *)
Theorem signOut_requests_and_repeat (w : World) :
  idb_delete_fails (faults w) = false →
  fetched (snd (signOut w))
  = fetched w
    ++ (if truthy_opt (accessToken w)
        then [logout_request w (accessToken w)] else [])
  ∧ fst (signOut (snd (signOut w))) = Ok tt
  ∧ fetched (snd (signOut (snd (signOut w)))) = fetched (snd (signOut w))
  ∧ notified (snd (signOut (snd (signOut w))))
    = notified (snd (signOut w))
      ++ ((λ cb, EvNotify cb None) <$> authStateCallbacks w).
Proof.
  intros Hd. destruct (signOut w) as [r w1] eqn:E1. simpl.
  apply signOut_spec in E1 as (Hsu1 & Htok1 & _ & Hok1 & _).
  destruct (Hok1 Hd) as (_ & Hfe1 & _).
  destruct (signOut w1) as [r2 w2] eqn:E2. simpl.
  apply signOut_spec in E2 as (_ & _ & _ & Hok2 & _).
  assert (Hd1 : idb_delete_fails (faults w1) = false).
  { destruct Hsu1 as (_ & _ & -> & _). exact Hd. }
  destruct (Hok2 Hd1) as (-> & Hfe2 & Hno2).
  rewrite Htok1 in Hfe2. simpl in Hfe2. rewrite app_nil_r in Hfe2.
  destruct Hsu1 as (_ & Hcb & _). rewrite Hcb in Hno2. done.
Qed.

Lemma signOut_requests_and_repeat_witness :
  idb_delete_fails (faults signed_in) = false
  ∧ fetched (snd (signOut signed_in))
    = [logout_request signed_in (Some "t1")]
  ∧ fetched (snd (signOut (snd (signOut signed_in))))
    = fetched (snd (signOut signed_in)).
Proof.
  assert (H : idb_delete_fails (faults signed_in) = false) by reflexivity.
  destruct (signOut_requests_and_repeat signed_in H) as (H1 & _ & H2 & _).
  exact (conj H (conj H1 H2)).
Defined.

(** X16.  A sign-out cut short.  When the database is open (or opens)
    and the IndexedDB delete request errors, [signOut()] rejects.  By
    then the token is cleared and the identity is removed from
    localStorage and from the cookie (each where removal works), but
    everything after the removal is skipped: no logout request is
    sent, no subscriber is notified, and the Google script is not
    told. *)
Theorem signOut_cut_short (w : World) :
  idb_fails w = false → idb_delete_fails (faults w) = true →
  fst (signOut w) = Throw StorageError
  ∧ accessToken (snd (signOut w)) = None
  ∧ (ls_remove_throws (faults w) = false →
     localStorage (snd (signOut w)) !! getStorageKeys_user w = None)
  ∧ (cookie_delete_fails (faults w) = false →
     cookieJar (snd (signOut w)) !! getStorageKeys_user w = None)
  ∧ fetched (snd (signOut w)) = fetched w
  ∧ notified (snd (signOut w)) = notified w
  ∧ adds (λ e, is_gis (ev e) = false) w (snd (signOut w)).
Proof.
  intros Hopen Hdel.
  destruct (signOut_steps w)
    as (w2 & r3 & w3 & Hsu2 & Hst2 & _ & Htok2 & Ha2 & E3 & Hrest).
  assert (Hf2 : faults w2 = faults w) by apply Hsu2.
  assert (Hopen2 : idb_fails w2 = false).
  { unfold idb_fails. destruct Hst2 as (_ & _ & _ & -> & _).
    by rewrite Hf2. }
  pose proof E3 as E3'.
  apply multiRemove_rejected in E3' as (-> & Hls & Hck & _);
    [| done | by rewrite Hf2].
  apply multiRemove_spec in E3 as (_ & Hse3 & (d & Hd & Fd) & _).
  rewrite Hrest. simpl. rewrite Hf2 in *.
  assert (Ha3 : adds (stamped (accessToken w2) is_storage) w2 w3).
  { eexists. split; [exact Hd |]. constructor; [by split | exact Fd]. }
  assert (Ha : adds (λ e, is_gis (ev e) = false
                          ∧ is_fetch (ev e) = false
                          ∧ is_notify (ev e) = false) w w3).
  { eapply adds_trans.
    - eapply adds_mono; [| exact Ha2]. intros e [He _]. by destruct (ev e).
    - eapply adds_mono; [| exact Ha3]. intros e [He _]. by destruct (ev e). }
  split; [done |].
  split; [destruct Hse3 as (-> & _); exact Htok2 |].
  split; [exact Hls |]. split; [exact Hck |].
  split; [eapply adds_fetched; [exact Ha |]; by intros e (_ & ? & _) |].
  split; [eapply adds_notified; [exact Ha |]; by intros e (_ & _ & ?) |].
  eapply adds_mono; [| exact Ha]. by intros e (? & _).
Qed.

Lemma signOut_cut_short_witness :
  idb_fails delete_errors = false
  ∧ idb_delete_fails (faults delete_errors) = true
  ∧ fst (signOut delete_errors) = Throw StorageError
  ∧ accessToken (snd (signOut delete_errors)) = None
  ∧ fetched (snd (signOut delete_errors)) = []
  ∧ notified (snd (signOut delete_errors)) = [].
Proof.
  assert (H1 : idb_fails delete_errors = false) by reflexivity.
  assert (H2 : idb_delete_fails (faults delete_errors) = true)
    by reflexivity.
  destruct (signOut_cut_short delete_errors H1 H2)
    as (Hr & Ht & _ & _ & Hf & Hn & _).
  exact (conj H1 (conj H2 (conj Hr (conj Ht (conj Hf Hn))))).
Defined.

(** ** The avatar cache *)

Lemma avatar_key_is_not_user_key w :
  getStorageKeys_avatarCache w ≠ getStorageKeys_user w.
Proof.
  unfold getStorageKeys_avatarCache, getStorageKeys_user.
  intros H%string_app_inv_l. discriminate H.
Qed.

(** X17.  The avatar cache and the identity are kept under different
    keys, and neither clean-up touches the other's.  [signOut()] --
    completed or not -- leaves the entry under the avatar cache key in
    every tier as it was, so a cached avatar survives a sign-out until
    [clearCachedAvatar()] is called; [clearCachedAvatar()] leaves the
    cached identity in place, and when [localStorage.removeItem] works,
    [getCachedAvatar] finds nothing afterwards. *)
Theorem avatar_cache_survives_signOut (w : World) :
  localStorage (snd (signOut w)) !! getStorageKeys_avatarCache w
  = localStorage w !! getStorageKeys_avatarCache w
  ∧ fst (getCachedAvatar (getStorageKeys_avatarCache w) (snd (signOut w)))
    = fst (getCachedAvatar (getStorageKeys_avatarCache w) w)
  ∧ fst (clearCachedAvatar w) = Ok tt
  ∧ localStorage (snd (clearCachedAvatar w)) !! getStorageKeys_user w
    = localStorage w !! getStorageKeys_user w
  ∧ cached_identity (snd (clearCachedAvatar w)) = cached_identity w
  ∧ (ls_remove_throws (faults w) = false →
     fst (getCachedAvatar (getStorageKeys_avatarCache w)
            (snd (clearCachedAvatar w))) = Ok None).
Proof.
  pose proof (avatar_key_is_not_user_key w) as Hk.
  destruct (signOut_other_key _ w Hk) as (Hl & _).
  split; [exact Hl |]. split.
  { destruct (signOut w) as [r w'] eqn:E. simpl in *.
    apply signOut_spec in E as ((_ & _ & Hf & _) & _).
    revert Hl Hf. generalize (getStorageKeys_avatarCache w). intros key.
    destruct w, w'. unfold getCachedAvatar. storage_unfold. simpl.
    intros -> ->. by destruct (ls_get_throws _). }
  revert Hk. unfold cached_identity, sync_view, ls_seen, cookie_seen,
    getStorageKeys_avatarCache, getStorageKeys_user.
  destruct w as [c t cbs db ls ck idb pd f gl ga jp js sv tr].
  unfold clearCachedAvatar, getCachedAvatar, getAvatarCacheKey,
    getStorageKeys_avatarCache.
  storage_unfold. simpl. intros Hk.
  destruct (ls_remove_throws f); simpl.
  - repeat split; done.
  - rewrite lookup_delete_ne by done. repeat split; try done.
    intros _. rewrite lookup_delete_eq. by destruct (ls_get_throws f).
Qed.

Lemma avatar_cache_survives_signOut_witness :
  let w := set_localStorage
             {[ "auth_user" := "ada"; "auth_avatar_cache" := "data:image" ]}
             signed_in in
  ls_remove_throws (faults w) = false
  ∧ fst (getCachedAvatar "auth_avatar_cache" (snd (signOut w)))
    = Ok (Some "data:image")
  ∧ fst (getCachedAvatar "auth_avatar_cache" (snd (clearCachedAvatar w)))
    = Ok None.
Proof.
  intros w.
  assert (H : ls_remove_throws (faults w) = false) by reflexivity.
  destruct (avatar_cache_survives_signOut w) as (_ & Hs & _ & _ & _ & Hc).
  exact (conj H (conj Hs (Hc H))).
Defined.

(** ** The identity that only IndexedDB still holds *)

Lemma multiGet_from_indexedDB k s w :
  healthy w → missing (localStorage w) k → missing (cookieJar w) k →
  idbStore w !! k = Some s → s ≠ EmptyString →
  fst (multiGet k w) = Ok (Some s)
  ∧ same_setup w (snd (multiGet k w))
  ∧ same_session w (snd (multiGet k w))
  ∧ localStorage (snd (multiGet k w)) !! k = Some s.
Proof.
  destruct w as [c t cbs db ls ck idb pd f gl ga jp js sv tr].
  unfold healthy, missing. simpl.
  intros (-> & Hdb) Hls Hck Hidb Hs%truthy_true.
  destruct db as [[|]|]; [ | done | ].
  all: storage_unfold; simpl.
  all: repeat (progress (simpl;
         rewrite ?lookup_insert_eq, ?Hls, ?Hck, ?Hidb, ?Hs)).
  all: frames; apply lookup_insert_eq.
Qed.

Lemma missing_no_identity w :
  missing (localStorage w) (getStorageKeys_user w) →
  missing (cookieJar w) (getStorageKeys_user w) →
  cached_identity w = None.
Proof.
  unfold missing, cached_identity, sync_view, ls_seen, cookie_seen.
  intros Hls Hck.
  destruct (ls_get_throws (faults w)), (cookie_get_throws (faults w));
    simpl; rewrite ?Hls; try done.
  all: destruct (cookieJar w !! getStorageKeys_user w) as [s |]; [| done].
  all: simpl in Hck; by rewrite Hck.
Qed.

Lemma isAuthenticated_eq w :
  fst (isAuthenticated w)
  = Ok (truthy_opt (accessToken w) && bool_decide (is_Some (cached_identity w))).
Proof.
  unfold isAuthenticated. run. destruct (truthy_opt (accessToken w)); [| done].
  destruct (getCurrentUserSync w) as [r w'] eqn:E.
  by apply getCurrentUserSync_spec in E as (-> & _).
Qed.

(** X18.  [getCurrentUser()] brings back an identity that only
    IndexedDB still holds.  With the three engines working, the user
    key gone from localStorage and from the cookie but still in
    IndexedDB with a non-empty value that parses: the synchronous
    [getCurrentUserSync()] finds nobody and [isAuthenticated()] is
    false; [getCurrentUser()] returns the identity, and from then on
    [getCurrentUserSync()] returns it too -- and [isAuthenticated()] is
    true when a token is in memory. *)
Theorem getCurrentUser_restores_from_indexedDB (w : World) (s : string)
    (u : GoogleUser) :
  healthy w →
  missing (localStorage w) (getStorageKeys_user w) →
  missing (cookieJar w) (getStorageKeys_user w) →
  idbStore w !! getStorageKeys_user w = Some s →
  s ≠ EmptyString → JSON_parse w s = Some u →
  fst (getCurrentUserSync w) = Ok None
  ∧ fst (isAuthenticated w) = Ok false
  ∧ fst (getCurrentUser w) = Ok (Some u)
  ∧ fst (getCurrentUserSync (snd (getCurrentUser w))) = Ok (Some u)
  ∧ (truthy_opt (accessToken w) = true →
     fst (isAuthenticated (snd (getCurrentUser w))) = Ok true).
Proof.
  intros Hh Hls Hck Hidb Hs Hjp.
  pose proof (missing_no_identity w Hls Hck) as Hnone.
  destruct (multiGet_from_indexedDB _ s w Hh Hls Hck Hidb Hs)
    as (Hr & Hsu & Hse & Hl).
  assert (Hw : getCurrentUser w = (Ok (Some u), snd (multiGet (getStorageKeys_user w) w))).
  { unfold getCurrentUser. run.
    destruct (multiGet (getStorageKeys_user w) w) as [r w'].
    simpl in *. subst r. apply truthy_true in Hs. rewrite Hs.
    destruct Hsu as (_ & _ & _ & _ & -> & _). by rewrite Hjp. }
  rewrite Hw. simpl.
  set (w' := snd (multiGet (getStorageKeys_user w) w)) in *.
  assert (Hid : cached_identity w' = Some u).
  { unfold cached_identity, sync_view, ls_seen.
    rewrite (key_frame _ _ Hsu), Hl.
    destruct Hsu as (_ & _ & -> & _ & -> & _). destruct Hh as (-> & _).
    simpl. apply truthy_true in Hs. rewrite Hs. simpl. by rewrite ?Hs, Hjp. }
  split.
  { destruct (getCurrentUserSync w) as [r w0] eqn:E.
    apply getCurrentUserSync_spec in E as (-> & _). by rewrite Hnone. }
  split; [by rewrite isAuthenticated_eq, Hnone, andb_false_r |].
  split; [done |]. split.
  { destruct (getCurrentUserSync w') as [r w0] eqn:E.
    apply getCurrentUserSync_spec in E as (-> & _). by rewrite Hid. }
  intros Htok. rewrite isAuthenticated_eq, Hid.
  destruct Hse as (-> & _). by rewrite Htok.
Qed.

Lemma getCurrentUser_restores_from_indexedDB_witness :
  healthy only_idb
  ∧ missing (localStorage only_idb) (getStorageKeys_user only_idb)
  ∧ missing (cookieJar only_idb) (getStorageKeys_user only_idb)
  ∧ idbStore only_idb !! getStorageKeys_user only_idb = Some "ada"
  ∧ "ada" ≠ EmptyString
  ∧ JSON_parse only_idb "ada" = Some (user_of "ada")
  ∧ fst (getCurrentUserSync only_idb) = Ok None
  ∧ fst (getCurrentUser only_idb) = Ok (Some (user_of "ada"))
  ∧ fst (getCurrentUserSync (snd (getCurrentUser only_idb)))
    = Ok (Some (user_of "ada")).
Proof.
  assert (H1 : healthy only_idb) by (split; [reflexivity | discriminate]).
  assert (H2 : missing (localStorage only_idb) (getStorageKeys_user only_idb))
    by reflexivity.
  assert (H3 : missing (cookieJar only_idb) (getStorageKeys_user only_idb))
    by reflexivity.
  assert (H4 : idbStore only_idb !! getStorageKeys_user only_idb = Some "ada")
    by (vm_compute; reflexivity).
  assert (H5 : "ada" ≠ EmptyString) by discriminate.
  assert (H6 : JSON_parse only_idb "ada" = Some (user_of "ada"))
    by reflexivity.
  destruct (getCurrentUser_restores_from_indexedDB only_idb "ada"
              (user_of "ada") H1 H2 H3 H4 H5 H6) as (Ha & _ & Hb & Hc & _).
  exact (conj H1 (conj H2 (conj H3 (conj H4 (conj H5 (conj H6
           (conj Ha (conj Hb Hc)))))))).
Defined.

(** ** Subscribing the same callback more than once *)

Lemma subscribe_all_trace cbs w : trace (subscribe_all cbs w) = trace w.
Proof.
  revert w. induction cbs as [| cb cbs IH]; intros w; [done |].
  unfold subscribe_all in *. simpl. rewrite IH. by destruct w.
Qed.

Lemma filter_other_replicate (callback : Callback) n :
  filter (λ cb, cb ≠ callback) (replicate n callback) = [].
Proof.
  induction n as [| n IH]; [done |]. simpl.
  rewrite filter_cons, decide_False; [exact IH | by intros H].
Qed.

Lemma not_elem_of_filter_other (callback : Callback) (l : list Callback) :
  callback ∉ filter (λ cb, cb ≠ callback) l.
Proof. intros H%list_elem_of_filter. by destruct H. Qed.

(** X19.  [onAuthStateChange] does not look for duplicates, and the
    unsubscribe function removes by identity.  A callback subscribed
    [n] times is invoked [n] times by each notification, after the
    subscribers that were there before; a single call of any one of
    the unsubscribe functions it was handed removes all [n]
    registrations, and later notifications do not reach it. *)
Theorem unsubscribe_drops_every_registration (callback : Callback)
    (u : option GoogleUser) (n : nat) (w : World) :
  notified (snd (notifyAuthStateChange u
                   (subscribe_all (replicate n callback) w)))
  = notified w
    ++ ((λ cb, EvNotify cb u) <$> authStateCallbacks w)
    ++ replicate n (EvNotify callback u)
  ∧ authStateCallbacks
      (snd (unsubscribe callback (subscribe_all (replicate n callback) w)))
    = filter (λ cb, cb ≠ callback) (authStateCallbacks w)
  ∧ (callback
     ∉ authStateCallbacks
         (snd (unsubscribe callback
                 (subscribe_all (replicate n callback) w))))
  ∧ notified
      (snd (notifyAuthStateChange u
              (snd (unsubscribe callback
                      (subscribe_all (replicate n callback) w)))))
    = notified w
      ++ ((λ cb, EvNotify cb u)
            <$> filter (λ cb, cb ≠ callback) (authStateCallbacks w))
  ∧ (EvNotify callback u
     ∉ ((λ cb, EvNotify cb u)
          <$> filter (λ cb, cb ≠ callback) (authStateCallbacks w))).
Proof.
  set (w1 := subscribe_all (replicate n callback) w).
  assert (Hcb1 : authStateCallbacks w1
                 = authStateCallbacks w ++ replicate n callback)
    by apply subscribe_all_callbacks.
  assert (Hno1 : notified w1 = notified w).
  { apply notified_same_trace, subscribe_all_trace. }
  assert (Hcb2 : authStateCallbacks (snd (unsubscribe callback w1))
                 = filter (λ cb, cb ≠ callback) (authStateCallbacks w)).
  { transitivity (filter (λ cb, cb ≠ callback) (authStateCallbacks w1)).
    - by destruct w1.
    - by rewrite Hcb1, filter_app, filter_other_replicate, app_nil_r. }
  assert (Hno2 : notified (snd (unsubscribe callback w1)) = notified w).
  { rewrite <- Hno1. apply notified_same_trace. by destruct w1. }
  split.
  { destruct (notifyAuthStateChange u w1) as [r w'] eqn:E. simpl.
    apply notifyAuthStateChange_effect in E as (_ & _ & ->).
    by rewrite Hno1, Hcb1, fmap_app, fmap_replicate. }
  split; [exact Hcb2 |].
  split; [rewrite Hcb2; apply not_elem_of_filter_other |].
  split.
  { destruct (notifyAuthStateChange u (snd (unsubscribe callback w1)))
      as [r w'] eqn:E. simpl.
    apply notifyAuthStateChange_effect in E as (_ & _ & ->).
    by rewrite Hno2, Hcb2. }
  intros (cb & [= ->] & H)%list_elem_of_fmap.
  by apply not_elem_of_filter_other in H.
Qed.

(** ** Configuration and the caches *)

(** X20.  A new storage prefix re-keys the caches.  After
    [configureGoogleAuth] with a non-empty [storagePrefix] [p], the
    identity is looked up under [p_user] and the avatar under
    [p_avatar_cache]; the client id and the API base URL are the ones
    of this call; the token and the three stores are as they were.
    Nothing is migrated: unless the synchronous tiers hold something
    under [p_user], [getCurrentUserSync()] finds nobody and
    [isAuthenticated()] is false, whatever is cached under the
    previous prefix. *)
Theorem configureGoogleAuth_rekeys_the_caches (config : GoogleAuthConfig)
    (p : string) (w : World) :
  storagePrefix config = Some p → p ≠ EmptyString →
  getStorageKeys_user (snd (configureGoogleAuth config w)) = p +:+ "_user"
  ∧ getStorageKeys_avatarCache (snd (configureGoogleAuth config w))
    = p +:+ "_avatar_cache"
  ∧ cfg_clientId (CONFIG (snd (configureGoogleAuth config w)))
    = clientId config
  ∧ cfg_apiBaseUrl (CONFIG (snd (configureGoogleAuth config w)))
    = apiBaseUrl config
  ∧ accessToken (snd (configureGoogleAuth config w)) = accessToken w
  ∧ same_stores w (snd (configureGoogleAuth config w))
  ∧ (missing (localStorage w) (p +:+ "_user") →
     missing (cookieJar w) (p +:+ "_user") →
     fst (getCurrentUserSync (snd (configureGoogleAuth config w))) = Ok None
     ∧ fst (isAuthenticated (snd (configureGoogleAuth config w)))
       = Ok false).
Proof.
  intros Hp Hne%truthy_true.
  assert (Hw : ∃ w', snd (configureGoogleAuth config w) = w'
                     ∧ CONFIG w' = mkCONFIG (clientId config)
                                     (apiBaseUrl config) p
                     ∧ accessToken w' = accessToken w
                     ∧ same_stores w w').
  { eexists. split; [reflexivity |]. destruct w. unfold configureGoogleAuth.
    run. simpl. rewrite Hp, Hne. by repeat split. }
  destruct Hw as (w' & -> & HC & Htok & Hst).
  assert (Hkey : getStorageKeys_user w' = p +:+ "_user")
    by (unfold getStorageKeys_user; by rewrite HC).
  split; [exact Hkey |].
  split; [unfold getStorageKeys_avatarCache; by rewrite HC |].
  split; [by rewrite HC |]. split; [by rewrite HC |].
  split; [exact Htok |]. split; [exact Hst |].
  intros Hls Hck.
  assert (Hnone : cached_identity w' = None).
  { apply missing_no_identity; rewrite Hkey.
    - by destruct Hst as (-> & _).
    - by destruct Hst as (_ & -> & _). }
  split.
  - destruct (getCurrentUserSync w') as [r w0] eqn:E.
    apply getCurrentUserSync_spec in E as (-> & _). by rewrite Hnone.
  - by rewrite isAuthenticated_eq, Hnone, andb_false_r.
Qed.

Lemma configureGoogleAuth_rekeys_the_caches_witness :
  let config := mkConfig "client-id" "https://api" (Some "app") in
  storagePrefix config = Some "app" ∧ "app" ≠ EmptyString
  ∧ missing (localStorage signed_in) ("app" +:+ "_user")
  ∧ missing (cookieJar signed_in) ("app" +:+ "_user")
  ∧ fst (isAuthenticated signed_in) = Ok true
  ∧ fst (isAuthenticated (snd (configureGoogleAuth config signed_in)))
    = Ok false.
Proof.
  intros config.
  assert (H1 : storagePrefix config = Some "app") by reflexivity.
  assert (H2 : "app" ≠ EmptyString) by discriminate.
  assert (H3 : missing (localStorage signed_in) ("app" +:+ "_user"))
    by reflexivity.
  assert (H4 : missing (cookieJar signed_in) ("app" +:+ "_user"))
    by reflexivity.
  assert (H5 : fst (isAuthenticated signed_in) = Ok true)
    by (vm_compute; reflexivity).
  destruct (configureGoogleAuth_rekeys_the_caches config "app" signed_in
              H1 H2) as (_ & _ & _ & _ & _ & _ & H).
  destruct (H H3 H4) as (_ & H6).
  exact (conj H1 (conj H2 (conj H3 (conj H4 (conj H5 H6))))).
Defined.

(** ** The refresh call on its own *)

(** X21.  What [refreshToken()] changes.  A granted refresh changes
    the token in memory and nothing else: one request is sent, the
    stores are not touched and no subscriber is notified; it resolves
    to [true].  A refresh that dies on the network, or is answered 2xx
    without granting a token, resolves to [false] and leaves even the
    token as it was.  A non-2xx answer resolves to [false] after a
    [signOut()], so the token is [null] afterwards. *)
Theorem refreshToken_outcomes (w : World) :
  (∀ t, granted_token (server w (fetched w) (refresh_request w)) = Some t →
     refreshToken w
     = (Ok true,
        set_accessToken (Some t) (log (EvFetch (refresh_request w)) w)))
  ∧ (granted_token (server w (fetched w) (refresh_request w)) = None →
     server w (fetched w) (refresh_request w) = NetworkError
     ∨ (∃ r, server w (fetched w) (refresh_request w) = Responded r
             ∧ ok r = true) →
     refreshToken w = (Ok false, log (EvFetch (refresh_request w)) w))
  ∧ (∀ r, server w (fetched w) (refresh_request w) = Responded r →
     ok r = false →
     refreshToken w
     = (Ok false, snd (signOut (log (EvFetch (refresh_request w)) w)))
     ∧ accessToken (snd (refreshToken w)) = None).
Proof.
  split; [apply refreshToken_granted |]. split.
  - intros Hg Hcase. rewrite refreshToken_eq.
    destruct Hcase as [-> | (r & Hr & Hok)]; [done |].
    rewrite Hr in *. by rewrite Hok, Hg.
  - intros r Hr Hok. rewrite refreshToken_eq, Hr, Hok. split; [done |].
    simpl. destruct (signOut _) as [rs ws] eqn:Es.
    by apply signOut_spec in Es as (_ & ? & _).
Qed.

Lemma refreshToken_outcomes_witness :
  granted_token
    (server reloaded_online (fetched reloaded_online)
       (refresh_request reloaded_online)) = Some "t2"
  ∧ fst (refreshToken reloaded_online) = Ok true
  ∧ accessToken (snd (refreshToken reloaded_online)) = Some "t2".
Proof.
  assert (H : granted_token
                (server reloaded_online (fetched reloaded_online)
                   (refresh_request reloaded_online)) = Some "t2")
    by reflexivity.
  destruct (refreshToken_outcomes reloaded_online) as (Hg & _).
  pose proof (Hg "t2" H) as E.
  exact (conj H (conj (f_equal fst E) (f_equal (λ x, accessToken (snd x)) E))).
Defined.

(** * The components *)

(** ** A broken avatar image *)

Lemma handleError_eq a w :
  handleError a w
  = (Ok (let cached := ls_seen w (getStorageKeys_avatarCache w) in
         if truthy_opt cached && negb (bool_decide (cached = imageSrc a))
         then mkAvatar cached (imageError a)
         else mkAvatar (imageSrc a) true),
     log (EvLsGet (getStorageKeys_avatarCache w)) w).
Proof.
  destruct w as [c t cbs db ls ck idb pd f gl ga jp js sv tr].
  unfold handleError, getCachedAvatar, getAvatarCacheKey, ls_seen,
    getStorageKeys_avatarCache.
  storage_unfold. simpl.
  destruct (ls_get_throws f); simpl; [done |].
  by destruct (truthy_opt (ls !! _) && _).
Qed.

(** X22.  A load error tries a cached image once.  [handleError]
    only reads the cache.  It switches the image to the cached avatar
    when the cache holds a non-empty value other than the image that
    just failed, and otherwise sets [imageError].  If the cache reads
    the same at the next load error, that error always sets
    [imageError]: with an unchanged cache at most two images are tried
    before the initials are shown.  The cache can change in between,
    though: when the write of [cacheAvatar] lands between the two
    errors with another non-empty data URL, the second error switches
    to that image instead of setting [imageError]. *)
Theorem handleError_switches_once_per_cached_image (a : Avatar) (w : World) :
  let cached := ls_seen w (getStorageKeys_avatarCache w) in
  let a1 := if truthy_opt cached && negb (bool_decide (cached = imageSrc a))
            then mkAvatar cached (imageError a)
            else mkAvatar (imageSrc a) true in
  handleError a w = (Ok a1, log (EvLsGet (getStorageKeys_avatarCache w)) w)
  ∧ localStorage (snd (handleError a w)) = localStorage w
  ∧ (∀ w2,
       ls_seen w2 (getStorageKeys_avatarCache w2) = cached →
       ∃ a2, fst (handleError a1 w2) = Ok a2
             ∧ imageError a2 = true ∧ shows_image a2 = false)
  ∧ (∀ dataUrl,
       dataUrl ≠ EmptyString → Some dataUrl ≠ imageSrc a1 →
       ls_set_throws (faults w) = false → ls_get_throws (faults w) = false →
       fst (handleError a1
              (snd (cacheAvatar_store (getStorageKeys_avatarCache w) dataUrl
                      (snd (handleError a w)))))
       = Ok (mkAvatar (Some dataUrl) (imageError a1))).
Proof.
  intros cached a1. rewrite handleError_eq. fold cached. fold a1. simpl.
  split; [reflexivity |]. split; [by destruct w |]. split.
  - intros w2 Hsame. rewrite handleError_eq. simpl. rewrite Hsame.
    eexists. split; [reflexivity |]. unfold shows_image, a1.
    destruct (truthy_opt cached) eqn:Ht; simpl;
      [destruct (bool_decide (cached = imageSrc a)) eqn:Heq; simpl |].
    1: rewrite Heq; simpl.
    2: rewrite bool_decide_true by done; simpl.
    all: rewrite ?andb_false_r; done.
  - intros dataUrl Hne%truthy_true Hdiff Hset Hget.
    rewrite handleError_eq. simpl.
    assert (Hseen :
      ls_seen
        (snd (cacheAvatar_store (getStorageKeys_avatarCache w) dataUrl
                (log (EvLsGet (getStorageKeys_avatarCache w)) w)))
        (getStorageKeys_avatarCache
           (snd (cacheAvatar_store (getStorageKeys_avatarCache w) dataUrl
                   (log (EvLsGet (getStorageKeys_avatarCache w)) w))))
      = Some dataUrl).
    { clear a1 Hdiff cached. unfold ls_seen, getStorageKeys_avatarCache.
      destruct w as [c t cbs db ls ck idb pd f gl ga jp js sv tr].
      unfold cacheAvatar_store. storage_unfold. simpl in *.
      rewrite Hset. simpl. rewrite Hget. apply lookup_insert_eq. }
    rewrite Hseen. simpl. rewrite Hne. simpl.
    by rewrite bool_decide_false.
Qed.

Lemma handleError_switches_once_per_cached_image_witness :
  let w := set_localStorage {[ "auth_avatar_cache" := "data:A" ]} signed_in in
  let a := mkAvatar (Some "https://img/ada.png") false in
  fst (handleError a w) = Ok (mkAvatar (Some "data:A") false)
  ∧ fst (handleError (mkAvatar (Some "data:A") false)
           (snd (handleError a w))) = Ok (mkAvatar (Some "data:A") true)
  ∧ fst (handleError (mkAvatar (Some "data:A") false)
           (snd (cacheAvatar_store "auth_avatar_cache" "data:B"
                   (snd (handleError a w)))))
    = Ok (mkAvatar (Some "data:B") false).
Proof.
  intros w a.
  destruct (handleError_switches_once_per_cached_image a w)
    as (H1 & _ & H2 & H3).
  split; [exact (f_equal fst H1) |]. split.
  - vm_compute. reflexivity.
  - apply (H3 "data:B"); [discriminate | discriminate | reflexivity
                           | reflexivity].
Defined.

(** X23.  The fallback colour is always one of the palette.  For every
    non-empty e-mail address [getAvatarColor] picks one of the seven
    colours (the index is the first character's code modulo seven, so
    it is never out of range); only for the empty address is the
    colour undefined. *)
Theorem getAvatarColor_in_palette (email : string) :
  (email ≠ EmptyString →
   ∃ colour, getAvatarColor email = Some colour ∧ colour ∈ avatarColors)
  ∧ getAvatarColor EmptyString = None.
Proof.
  split; [| done]. intros He. destruct email as [| c rest]; [done |].
  unfold getAvatarColor. simpl charCodeAt0. cbv iota.
  destruct (lookup_lt_is_Some_2 avatarColors
              (Ascii.nat_of_ascii c mod length avatarColors)%nat) as (colour & H).
  { apply Nat.mod_upper_bound. discriminate. }
  exists colour. split; [exact H |]. by eapply list_elem_of_lookup_2.
Qed.

Lemma getAvatarColor_in_palette_witness :
  "ada@example.org" ≠ EmptyString
  ∧ ∃ colour, getAvatarColor "ada@example.org" = Some colour
              ∧ colour ∈ avatarColors.
Proof.
  assert (H : "ada@example.org" ≠ EmptyString) by discriminate.
  destruct (getAvatarColor_in_palette "ada@example.org") as (Hc & _).
  exact (conj H (Hc H)).
Defined.

(** ** Waiting for the Google script *)

(** What holds of the button [n] periods after the mount. *)
Lemma button_after_cases (google_at : nat → bool) (renders : bool) (n : nat) :
  let b := button_after google_at renders n in
  (scheduled b = true ∧ attempts b = S n ∧ (n < 19)%nat
   ∧ isReady b = false ∧ gave_up b = false
   ∧ ∀ k, (k ≤ n)%nat → google_at k = false)
  ∨ (scheduled b = false ∧ (attempts b < 20)%nat ∧ gave_up b = false
     ∧ isReady b = renders
     ∧ ∃ k, (k ≤ n)%nat ∧ (k < 20)%nat ∧ google_at k = true)
  ∨ (scheduled b = false ∧ attempts b = 20%nat ∧ gave_up b = true
     ∧ isReady b = false ∧ (19 ≤ n)%nat
     ∧ ∀ k, (k < 20)%nat → google_at k = false).
Proof.
  induction n as [| n IH].
  - simpl. unfold mounted, tryRenderButton. simpl.
    destruct (google_at 0%nat) eqn:H0; simpl.
    + right; left. destruct renders; simpl.
      all: repeat split; try lia; exists 0%nat; repeat split; try lia; done.
    + left. repeat split; try lia. intros k Hk.
      by replace k with 0%nat by lia.
  - simpl in *.
    destruct IH as [(Hs & Ha & Hn & Hr & Hg & Hall)
                   | [(Hs & Ha & Hg & Hr & k & Hk & Hk20 & Hgk)
                     | (Hs & Ha & Hg & Hr & Hn & Hall)]].
    + unfold timeout_fires. rewrite Hs. unfold tryRenderButton.
      destruct (google_at (S n)) eqn:Hnext; simpl.
      * right; left. rewrite Ha, Hg.
        destruct renders; simpl; rewrite ?Hr.
        all: repeat split; try lia; exists (S n); repeat split; try lia;
          done.
      * rewrite Ha, Hr, Hg. unfold maxAttempts.
        destruct (S (S n) <? 20)%nat eqn:Hlt; simpl.
        -- apply Nat.ltb_lt in Hlt. left. repeat split; try lia.
           intros k Hk. destruct (decide (k = S n)) as [-> | Hne]; [done |].
           apply Hall. lia.
        -- apply Nat.ltb_ge in Hlt. right; right.
           repeat split; try lia. intros k Hk.
           destruct (decide (k = S n)) as [-> | Hne]; [done |].
           apply Hall. lia.
    + unfold timeout_fires. rewrite Hs. right; left.
      repeat split; try done. exists k. repeat split; try lia; done.
    + unfold timeout_fires. rewrite Hs. right; right.
      repeat split; try done. lia.
Qed.

(** X24.  The sign-in button gives the Google script at most twenty
    chances.  The effect looks for the script when the component
    mounts and then every 500 ms while it is missing.  It never counts
    more than twenty failed looks; from nineteen periods after the
    mount on, no timeout is scheduled any more.  The button is rendered
    (and [isReady] set) exactly when the script is there at one of
    those first twenty looks and [renderGoogleButton] does not throw;
    the failure is reported exactly when the script was missing at all
    twenty -- a script that arrives later is never picked up. *)
Theorem sign_in_button_polling_is_bounded (google_at : nat → bool)
    (renders : bool) (n : nat) :
  (attempts (button_after google_at renders n) ≤ maxAttempts)%nat
  ∧ ((19 ≤ n)%nat → scheduled (button_after google_at renders n) = false)
  ∧ (isReady (button_after google_at renders n) = true
     ↔ renders = true
       ∧ ∃ k, (k ≤ n)%nat ∧ (k < 20)%nat ∧ google_at k = true)
  ∧ (gave_up (button_after google_at renders n) = true
     ↔ (19 ≤ n)%nat ∧ ∀ k, (k < 20)%nat → google_at k = false).
Proof.
  unfold maxAttempts.
  destruct (button_after_cases google_at renders n)
    as [(Hs & Ha & Hn & Hr & Hg & Hall)
       | [(Hs & Ha & Hg & Hr & k & Hk & Hk20 & Hgk)
         | (Hs & Ha & Hg & Hr & Hn & Hall)]].
  - split; [lia |]. split; [lia |]. rewrite Hr, Hg. split.
    + split; [done |]. intros (_ & k & Hk & _ & Hgk).
      rewrite Hall in Hgk by done. done.
    + split; [done |]. lia.
  - split; [lia |]. split; [done |]. rewrite Hr, Hg. split.
    + split; [by eauto 10 | by intros (? & _)].
    + split; [done |]. intros (_ & Hall). rewrite Hall in Hgk by done. done.
  - split; [lia |]. split; [done |]. rewrite Hr, Hg. split.
    + split; [done |]. intros (_ & k & _ & Hk & Hgk).
      rewrite Hall in Hgk by done. done.
    + done.
Qed.

Lemma sign_in_button_polling_is_bounded_witness :
  (19 ≤ 30)%nat
  ∧ arrives_late 22 = true
  ∧ (∀ k, (k < 20)%nat → arrives_late k = false)
  ∧ scheduled (button_after arrives_late true 30) = false
  ∧ gave_up (button_after arrives_late true 30) = true.
Proof.
  assert (H1 : (19 ≤ 30)%nat) by lia.
  assert (H2 : ∀ k, (k < 20)%nat → arrives_late k = false).
  { intros k Hk. unfold arrives_late. apply Nat.leb_gt. lia. }
  destruct (sign_in_button_polling_is_bounded arrives_late true 30)
    as (_ & Hs & _ & Hg).
  exact (conj H1 (conj eq_refl (conj H2 (conj (Hs H1)
           (proj2 Hg (conj H1 H2)))))).
Defined.
